(** * dockerhub_top_images: extraction pipeline and paginated fetch loop

    A shallow embedding of [src/dockerhub_top_images.py].

    Conventions of the embedding.
    - Python [str] values are Rocq strings; a character is a code point
      below 256.
    - A decoded JSON document is a value of the tagged union [json].  A
      JSON object is an association list in insertion order; [d.get(k)] on
      an absent key and on a key bound to [null] both give [None].
    - A Python float is carried by its [repr] text, which is all the
      program ever does with one apart from testing it for zero.
    - A call that can raise returns a [result]; the exception classes are
      the three the program can meet.
    - [int()] and integer formatting are modelled without the interpreter's
      optional cap on the number of decimal digits. *)

From Stdlib Require Import ZArith String Ascii DecimalString DecimalPos List Bool Lia.
From stdpp Require Import gmap strings list.

Local Open Scope Z_scope.

(** ** Exceptions *)

Inductive pyexn := AttributeError | ValueError | TypeError.

Inductive result (A : Type) :=
| Ok (a : A)
| Raise (e : pyexn).
Arguments Ok {A} a.
Arguments Raise {A} e.

#[global] Instance result_ret : MRet result := fun _ a => Ok a.

#[global] Instance result_bind : MBind result := fun _ _ f m =>
  match m with
  | Ok a => f a
  | Raise e => Raise e
  end.

Definition raises {A} (m : result A) : Prop := exists e, m = Raise e.

(** ** Text primitives *)

Module Text.

Definition code (c : ascii) : N := N_of_ascii c.

Definition dquote : ascii := ascii_of_N 34.
Definition backslash : ascii := ascii_of_N 92.

Definition in_range (c : ascii) (lo hi : N) : bool :=
  ((lo <=? code c) && (code c <=? hi))%N.

Definition is_digit (c : ascii) : bool := in_range c 48 57.

Definition digit_val (c : ascii) : option Z :=
  if is_digit c then Some (Z.of_N (code c) - 48) else None.

Fixpoint has_char (c : ascii) (s : string) : bool :=
  match s with
  | EmptyString => false
  | String a s' => Ascii.eqb a c || has_char c s'
  end.

Definition is_empty (s : string) : bool :=
  match s with
  | EmptyString => true
  | String _ _ => false
  end.

(** [s.lstrip(c)], [s.rstrip(c)] and [s.strip(c)] for a one-character set. *)
Fixpoint lstrip (c : ascii) (s : string) : string :=
  match s with
  | EmptyString => EmptyString
  | String a s' => if Ascii.eqb a c then lstrip c s' else s
  end.

Fixpoint rstrip (c : ascii) (s : string) : string :=
  match s with
  | EmptyString => EmptyString
  | String a s' =>
      let t := rstrip c s' in
      if Ascii.eqb a c && is_empty t then EmptyString else String a t
  end.

Definition strip (c : ascii) (s : string) : string := rstrip c (lstrip c s).

(** [s.split(c, 1)] when [c] occurs in [s]: the text before the first
    occurrence and the text after it. *)
Fixpoint split_once (c : ascii) (s : string) : string * string :=
  match s with
  | EmptyString => (EmptyString, EmptyString)
  | String a s' =>
      if Ascii.eqb a c then (EmptyString, s')
      else let '(l, r) := split_once c s' in (String a l, r)
  end.

(** [s.replace(c, "")]. *)
Fixpoint remove_char (c : ascii) (s : string) : string :=
  match s with
  | EmptyString => EmptyString
  | String a s' =>
      if Ascii.eqb a c then remove_char c s' else String a (remove_char c s')
  end.

(** [pat in s] for strings. *)
Fixpoint contains (pat s : string) : bool :=
  String.prefix pat s ||
  match s with
  | EmptyString => false
  | String _ s' => contains pat s'
  end.

(** *** [int(s)] for a string argument

    Leading and trailing white space is skipped, one sign is allowed, and
    the digits may be separated by single underscores. *)

Definition is_int_space (c : ascii) : bool :=
  in_range c 9 13 || (code c =? 32)%N || (code c =? 133)%N || (code c =? 160)%N.

Fixpoint skip_space (s : string) : string :=
  match s with
  | EmptyString => EmptyString
  | String c s' => if is_int_space c then skip_space s' else s
  end.

Fixpoint all_space (s : string) : bool :=
  match s with
  | EmptyString => true
  | String c s' => is_int_space c && all_space s'
  end.

Fixpoint int_digits (s : string) (acc : Z) (after_underscore : bool) : option Z :=
  match s with
  | EmptyString => if after_underscore then None else Some acc
  | String c s' =>
      match digit_val c with
      | Some d => int_digits s' (10 * acc + d) false
      | None =>
          if after_underscore then None
          else if Ascii.eqb c "_" then int_digits s' acc true
          else if all_space s then Some acc
          else None
      end
  end.

Definition int_body (s : string) : option Z :=
  match s with
  | EmptyString => None
  | String c s' =>
      match digit_val c with
      | Some d => int_digits s' d false
      | None => None
      end
  end.

Definition py_int (s : string) : option Z :=
  match skip_space s with
  | EmptyString => None
  | String c t =>
      if Ascii.eqb c "-" then option_map Z.opp (int_body t)
      else if Ascii.eqb c "+" then int_body t
      else int_body (String c t)
  end.

Fixpoint all_chars (p : ascii -> bool) (s : string) : bool :=
  match s with
  | EmptyString => true
  | String c s' => p c && all_chars p s'
  end.

(** *** [str(z)] and [f"{z:,}"] for an integer *)

Definition str_int (z : Z) : string := NilZero.string_of_int (Z.to_int z).

Fixpoint group3 (rev_digits : list ascii) : list ascii :=
  match rev_digits with
  | a :: b :: c :: ((_ :: _) as rest) => a :: b :: c :: ","%char :: group3 rest
  | _ => rev_digits
  end.

Definition format_grouped (z : Z) : string :=
  let digits := list_ascii_of_string (str_int (Z.abs z)) in
  let body := string_of_list_ascii (rev (group3 (rev digits))) in
  if z <? 0 then String "-" body else body.

(** *** [repr(s)] for a string *)

Definition hex_digit (n : N) : ascii :=
  if (n <? 10)%N then ascii_of_N (48 + n) else ascii_of_N (87 + n).

Definition is_printable (c : ascii) : bool :=
  in_range c 32 126 || (in_range c 161 255 && negb (code c =? 173)%N).

Definition escape_char (quote c : ascii) : string :=
  if Ascii.eqb c quote || Ascii.eqb c backslash then String backslash (String c EmptyString)
  else if (code c =? 9)%N then String backslash "t"
  else if (code c =? 10)%N then String backslash "n"
  else if (code c =? 13)%N then String backslash "r"
  else if is_printable c then String c EmptyString
  else String backslash (String "x" (String (hex_digit (code c / 16))
                                      (String (hex_digit (code c mod 16)) EmptyString))).

Fixpoint escape (quote : ascii) (s : string) : string :=
  match s with
  | EmptyString => EmptyString
  | String c s' => escape_char quote c +:+ escape quote s'
  end.

Definition repr_str (s : string) : string :=
  let quote : ascii :=
    if has_char "'" s && negb (has_char dquote s) then dquote else "'"%char in
  String quote (escape quote s +:+ String quote EmptyString).

End Text.

(** ** Decoded JSON values *)

#[warning="-register-all"]
Inductive json :=
| JNull
| JBool (b : bool)
| JInt (z : Z)
| JFloat (repr : string)
| JStr (s : string)
| JList (xs : list json)
| JDict (kvs : list (string * json)).

(** Python truth value of a decoded value. *)
Definition truthy (v : json) : bool :=
  match v with
  | JNull => false
  | JBool b => b
  | JInt z => negb (z =? 0)
  | JFloat r => negb (String.eqb r "0.0" || String.eqb r "-0.0")
  | JStr s => negb (Text.is_empty s)
  | JList xs => match xs with [] => false | _ => true end
  | JDict kvs => match kvs with [] => false | _ => true end
  end.

(** [a or b]. *)
Definition py_or (a b : json) : json := if truthy a then a else b.

(** [a1 or a2 or ... or last]. *)
Fixpoint first_truthy (alts : list json) (last : json) : json :=
  match alts with
  | [] => last
  | a :: alts' => py_or a (first_truthy alts' last)
  end.

(** [d.get(k)] on a dict. *)
Fixpoint dict_get (d : list (string * json)) (k : string) : json :=
  match d with
  | [] => JNull
  | (k', v) :: d' => if String.eqb k' k then v else dict_get d' k
  end.

(** [repr(v)] and [str(v)]. *)
Fixpoint py_repr (v : json) : string :=
  match v with
  | JNull => "None"
  | JBool true => "True"
  | JBool false => "False"
  | JInt z => Text.str_int z
  | JFloat r => r
  | JStr s => Text.repr_str s
  | JList xs =>
      let fix items (xs : list json) : string :=
        match xs with
        | [] => ""
        | [x] => py_repr x
        | x :: xs' => py_repr x +:+ ", " +:+ items xs'
        end in
      "[" +:+ items xs +:+ "]"
  | JDict kvs =>
      let fix items (kvs : list (string * json)) : string :=
        match kvs with
        | [] => ""
        | [(k, x)] => Text.repr_str k +:+ ": " +:+ py_repr x
        | (k, x) :: kvs' => Text.repr_str k +:+ ": " +:+ py_repr x +:+ ", " +:+ items kvs'
        end in
      "{" +:+ items kvs +:+ "}"
  end.

Definition py_str (v : json) : string :=
  match v with
  | JStr s => s
  | _ => py_repr v
  end.

(** ** Record model *)

Record RepoRow := {
  name : string;
  owner : string;
  pulls : string;
  stars : Z;
  last_updated : string;
  url : string
}.

Definition ORIGIN : string := "https://hub.docker.com".

(** ** Owner/name split *)

(** [(v or "").strip("/")]: only a string has [strip]. *)
Definition or_empty_strip (v : json) : result string :=
  match py_or v (JStr "") with
  | JStr s => Ok (Text.strip "/" s)
  | _ => Raise AttributeError
  end.

Definition split_owner_repo (ns name : json) : result (string * string) :=
  ns ← or_empty_strip ns;
  name ← or_empty_strip name;
  if Text.has_char "/" name then Ok (Text.split_once "/" name)
  else Ok (ns, name).

(** ** Structured extractor *)

Definition CANDIDATE_KEYS : list string := ["summaries"; "results"; "data"; "items"].
Definition NESTED_KEYS : list string := ["summaries"; "results"; "items"].

(** The first key of [keys] bound to a list, as the [for ... break] loops
    find it. *)
Fixpoint first_list_under (keys : list string) (d : list (string * json))
  : option (list json) :=
  match keys with
  | [] => None
  | k :: keys' =>
      match dict_get d k with
      | JList xs => Some xs
      | _ => first_list_under keys' d
      end
  end.

(** Truth value of [candidates], which is [None] or a list. *)
Definition cand_truthy (c : option (list json)) : bool :=
  match c with
  | Some (_ :: _) => true
  | _ => false
  end.

(** The loop over [payload.values()]: [candidates] keeps the last list
    assigned to it, and the loop stops at the first non-empty one. *)
Fixpoint scan_values (vs : list json) (cand : option (list json))
  : option (list json) :=
  match vs with
  | [] => cand
  | v :: vs' =>
      let cand' :=
        match v with
        | JDict d =>
            match first_list_under NESTED_KEYS d with
            | Some xs => Some xs
            | None => cand
            end
        | _ => cand
        end in
      if cand_truthy cand' then cand' else scan_values vs' cand'
  end.

Definition find_candidates (payload : list (string * json)) : option (list json) :=
  let cand := first_list_under CANDIDATE_KEYS payload in
  if cand_truthy cand then cand else scan_values (map snd payload) cand.

(** [link.startswith("/")] and the rebase onto the origin. *)
Definition rebase (link : json) : result string :=
  match link with
  | JStr s => Ok (if String.prefix "/" s then ORIGIN +:+ s else s)
  | _ => Raise AttributeError
  end.

Definition pulls_text (pulls_val : json) : string :=
  match pulls_val with
  | JInt z => Text.format_grouped z
  | JBool b => Text.format_grouped (if b then 1 else 0)
  | v => py_str v
  end.

Definition stars_of_text (s : string) : Z :=
  match Text.py_int (Text.remove_char "," s) with
  | Some z => z
  | None => 0
  end.

(** The body of the loop over the candidates, for one entry [it]:
    [Ok None] when the entry is skipped. *)
Definition row_of_entry (it : json) : result (option RepoRow) :=
  match it with
  | JDict d =>
      let get := dict_get d in
      let ns := first_truthy [get "namespace"; get "publisher"; get "orgname"] (JStr "") in
      let base_name :=
        first_truthy [get "name"; get "slug"; get "repo_name"; get "display_name"] (JStr "") in
      '(owner, repo) ← split_owner_repo ns base_name;
      let pulls_val :=
        first_truthy [get "pulls"; get "pull_count_str"; get "pull_count"] (JStr "") in
      let pulls := pulls_text pulls_val in
      let star_val := first_truthy [get "star_count"; get "stars"] (JInt 0) in
      let stars := stars_of_text (py_str star_val) in
      let updated := first_truthy [get "last_updated"; get "updated_at"] (JStr "") in
      let both := negb (Text.is_empty owner) && negb (Text.is_empty repo) in
      let link :=
        if both then py_or (get "href") (JStr ("/r/" +:+ owner +:+ "/" +:+ repo))
        else JStr "" in
      link ← rebase link;
      if both then
        Ok (Some {| name := repo; owner := owner; pulls := pulls; stars := stars;
                    last_updated := py_str updated; url := link |})
      else Ok None
  | _ => Raise AttributeError
  end.

Fixpoint rows_of (candidates : list json) (rows : list RepoRow)
  : result (list RepoRow) :=
  match candidates with
  | [] => Ok rows
  | it :: rest =>
      r ← row_of_entry it;
      match r with
      | Some row => rows_of rest (rows ++ [row])
      | None => rows_of rest rows
      end
  end.

Definition parse_search_json (payload : json) : result (list RepoRow) :=
  match payload with
  | JDict d =>
      match find_candidates d with
      | Some ((_ :: _) as candidates) => rows_of candidates []
      | _ => Ok []
      end
  | _ => Raise AttributeError
  end.

(** ** Regular expressions

    The fragment of [re] the program uses: literals and character classes,
    greedy repetition of one class, unnested groups and the two anchors.
    Matching backtracks as [re] does: greedy alternatives first, leftmost
    start first. *)

Module Rx.

Inductive item :=
| Chr (p : ascii -> bool)
| Many (p : ascii -> bool)
| Maybe (p : ascii -> bool)
| GOpen
| GClose
| Bos
| Eos.

Definition regex := list item.

Definition push (c : ascii) (cur : option string) : option string :=
  match cur with
  | Some t => Some (t +:+ String c EmptyString)
  | None => None
  end.

(** [$] without [re.M]: at the end, or before a final newline. *)
Definition at_end (s : string) : bool :=
  match s with
  | EmptyString => true
  | String c EmptyString => (Text.code c =? 10)%N
  | _ => false
  end.

Definition or_else {A} (a b : option A) : option A :=
  match a with
  | Some _ => a
  | None => b
  end.

(** [run r s pos cur caps]: match [r] against [s], which starts at offset
    [pos] of the subject; [cur] is the text of the group being captured and
    [caps] the groups already closed. *)
Fixpoint run (r : regex) (s : string) (pos : nat) (cur : option string)
    (caps : list string) {struct r} : option (list string) :=
  match r with
  | [] => Some caps
  | Chr p :: r' =>
      match s with
      | String c s' => if p c then run r' s' (S pos) (push c cur) caps else None
      | EmptyString => None
      end
  | Many p :: r' =>
      (fix many (s : string) (pos : nat) (cur : option string) {struct s} :=
         match s with
         | String c s' =>
             if p c then or_else (many s' (S pos) (push c cur)) (run r' s pos cur caps)
             else run r' s pos cur caps
         | EmptyString => run r' s pos cur caps
         end) s pos cur
  | Maybe p :: r' =>
      match s with
      | String c s' =>
          if p c then or_else (run r' s' (S pos) (push c cur) caps) (run r' s pos cur caps)
          else run r' s pos cur caps
      | EmptyString => run r' s pos cur caps
      end
  | GOpen :: r' => run r' s pos (Some EmptyString) caps
  | GClose :: r' => run r' s pos None (caps ++ [default EmptyString cur])
  | Bos :: r' => if Nat.eqb pos 0 then run r' s pos cur caps else None
  | Eos :: r' => if at_end s then run r' s pos cur caps else None
  end.

(** [re.match(r, s)] and [re.search(r, s)]: the captured groups. *)
Definition rmatch (r : regex) (s : string) : option (list string) :=
  run r s 0 None [].

Fixpoint search_from (r : regex) (s : string) (pos : nat) : option (list string) :=
  match run r s pos None [] with
  | Some caps => Some caps
  | None =>
      match s with
      | String _ s' => search_from r s' (S pos)
      | EmptyString => None
      end
  end.

Definition search (r : regex) (s : string) : option (list string) :=
  search_from r s 0.

Definition group1 (caps : list string) : string := nth 0 caps EmptyString.
Definition group2 (caps : list string) : string := nth 1 caps EmptyString.

(** Character classes. *)
Definition only c : ascii -> bool := fun x => Ascii.eqb x c.
Definition except c : ascii -> bool := fun x => negb (Ascii.eqb x c).

Definition lower (c : ascii) : ascii :=
  if Text.in_range c 65 90 then ascii_of_N (Text.code c + 32) else c.

(** A literal under [re.I]. *)
Definition is_ci c : ascii -> bool := fun x => Ascii.eqb (lower x) (lower c).

Definition is_alpha (c : ascii) : bool :=
  Text.in_range c 65 90 || Text.in_range c 97 122.

(** [\s] *)
Definition is_space (c : ascii) : bool :=
  Text.in_range c 9 13 || Text.in_range c 28 32
  || (Text.code c =? 133)%N || (Text.code c =? 160)%N.

(** [[0-9A-Za-z+.,]] *)
Definition is_count_char (c : ascii) : bool :=
  Text.is_digit c || is_alpha c || Ascii.eqb c "+" || Ascii.eqb c "." || Ascii.eqb c ",".

(** [[0-9,]] *)
Definition is_digit_or_comma (c : ascii) : bool :=
  Text.is_digit c || Ascii.eqb c ",".

(** [[^\n]] *)
Definition not_newline (c : ascii) : bool := negb (Text.code c =? 10)%N.

Definition lit (s : string) : regex := map (fun c => Chr (only c)) (list_ascii_of_string s).
Definition lit_ci (s : string) : regex := map (fun c => Chr (is_ci c)) (list_ascii_of_string s).
Definition plus (p : ascii -> bool) : regex := [Chr p; Many p].
Definition group (r : regex) : regex := [GOpen] ++ r ++ [GClose].

End Rx.

(** ** Markup extractor *)

(** [^/r/([^/]+)/([^/]+)/?$] *)
Definition RX_REPO_LINK : Rx.regex :=
  [Rx.Bos] ++ Rx.lit "/r/" ++ Rx.group (Rx.plus (Rx.except "/")) ++ Rx.lit "/"
  ++ Rx.group (Rx.plus (Rx.except "/")) ++ [Rx.Maybe (Rx.only "/"); Rx.Eos].

(** [Pulls\.\s*([0-9A-Za-z+.,]+)] and [([0-9A-Za-z+.,]+)\s+Pulls] *)
Definition RX_PULLS_AFTER : Rx.regex :=
  Rx.lit_ci "Pulls" ++ [Rx.Chr (Rx.only "."); Rx.Many Rx.is_space]
  ++ Rx.group (Rx.plus Rx.is_count_char).
Definition RX_PULLS_BEFORE : Rx.regex :=
  Rx.group (Rx.plus Rx.is_count_char) ++ Rx.plus Rx.is_space ++ Rx.lit_ci "Pulls".

(** [Stars\.\s*([0-9,]+)] and [([0-9,]+)\s+Stars] *)
Definition RX_STARS_AFTER : Rx.regex :=
  Rx.lit_ci "Stars" ++ [Rx.Chr (Rx.only "."); Rx.Many Rx.is_space]
  ++ Rx.group (Rx.plus Rx.is_digit_or_comma).
Definition RX_STARS_BEFORE : Rx.regex :=
  Rx.group (Rx.plus Rx.is_digit_or_comma) ++ Rx.plus Rx.is_space ++ Rx.lit_ci "Stars".

(** [Last Updated\.\s*([^\n]+)] and [Updated\s*([^\n]+)] *)
Definition RX_LAST_UPDATED : Rx.regex :=
  Rx.lit_ci "Last Updated" ++ [Rx.Chr (Rx.only "."); Rx.Many Rx.is_space]
  ++ Rx.group (Rx.plus Rx.not_newline).
Definition RX_UPDATED : Rx.regex :=
  Rx.lit_ci "Updated" ++ [Rx.Many Rx.is_space] ++ Rx.group (Rx.plus Rx.not_newline).

(** [_m(rx, s)]: every call passes [re.I], which [lit_ci] carries. *)
Definition _m (rx : Rx.regex) (s : string) : option string :=
  match Rx.search rx s with
  | Some caps => Some (Rx.group1 caps)
  | None => None
  end.

(** [a or b] where [a] is a string or [None]. *)
Definition or_text (a : option string) (b : string) : string :=
  match a with
  | Some t => if Text.is_empty t then b else t
  | None => b
  end.

(** What the markup query gives for one [<a href=...>]: the address and the
    flattened visible text [a.get_text(" ", strip=True)]. *)
Record anchor := { href : string; text : string }.

Definition row_of_anchor (a : anchor) : option RepoRow :=
  match Rx.rmatch RX_REPO_LINK (href a) with
  | None => None
  | Some m =>
      let owner := Rx.group1 m in
      let repo := Rx.group2 m in
      let text := text a in
      let pulls := or_text (_m RX_PULLS_AFTER text) (or_text (_m RX_PULLS_BEFORE text) "") in
      let stars_str := or_text (_m RX_STARS_AFTER text) (or_text (_m RX_STARS_BEFORE text) "0") in
      let stars := stars_of_text stars_str in
      let updated := or_text (_m RX_LAST_UPDATED text) (or_text (_m RX_UPDATED text) "") in
      Some {| name := repo; owner := owner; pulls := pulls; stars := stars;
              last_updated := updated; url := ORIGIN +:+ href a |}
  end.

(** [parse_from_dom], on the anchors [soup.find_all("a", href=True)] finds
    in the markup, in document order. *)
Definition parse_from_dom (anchors : list anchor) : list RepoRow :=
  omap row_of_anchor anchors.

(** ** Paginated fetch loop *)

Definition SEARCH_JSON_PATTERNS : list string :=
  ["/api/search"; "/api/content/v1/products/search"; "/v2/search/repositories";
   "/search/repositories"].

(** [SEARCH_URL_TMPL.format(sort=sort, page=page)] *)
Definition search_url (sort : string) (page : Z) : string :=
  "https://hub.docker.com/search?q=&type=image&order=desc&sort=" +:+ sort
  +:+ "&page=" +:+ Text.str_int page.

(** A network response as the listener sees it: its address, its
    content-type header if any, and what [resp.json()] gives ([None] when
    it raises). *)
Record response := {
  resp_url : string;
  content_type : option string;
  resp_json : option json
}.

(** What one navigation shows: the responses whose handlers ran while the
    listener was subscribed, in the order they extended the batch, and the
    anchors of the rendered markup. *)
Record page_view := {
  responses : list response;
  content : list anchor
}.

Definition maybe_parse (resp : response) : list RepoRow :=
  if negb (existsb (fun pat => Text.contains pat (resp_url resp)) SEARCH_JSON_PATTERNS)
  then []
  else if negb (Text.contains "json" (default EmptyString (content_type resp)))
  then []
  else match resp_json resp with
       | None => []
       | Some payload =>
           match parse_search_json payload with
           | Ok rows => rows
           | Raise _ => []
           end
       end.

(** The batch of one page: the rows of every captured response, else the
    rows scraped from the markup. *)
Definition page_batch (pv : page_view) : list RepoRow :=
  let batch := concat (map maybe_parse (responses pv)) in
  match batch with
  | [] => parse_from_dom (content pv)
  | _ => batch
  end.

Definition key : Type := string * string.
Definition key_of (r : RepoRow) : key := (owner r, name r).

(** [out[:n]] *)
Definition slice_to {A} (l : list A) (n : Z) : list A :=
  if n <? 0 then take (Z.to_nat (Z.of_nat (length l) + n)) l
  else take (Z.to_nat n) l.

(** The de-dup and collect loop over one batch, with its [break]. *)
Fixpoint accumulate (n : Z) (batch : list RepoRow) (seen : gset key)
    (out : list RepoRow) : gset key * list RepoRow :=
  match batch with
  | [] => (seen, out)
  | r :: batch' =>
      if decide (key_of r ∈ seen) then accumulate n batch' seen out
      else
        let seen := {[key_of r]} ∪ seen in
        let out := out ++ [r] in
        if Z.of_nat (length out) >=? n then (seen, out)
        else accumulate n batch' seen out
  end.

Definition PAGE_CEILING : Z := 50.

Section FetchLoop.

(** The browser session: what navigating to an address shows. *)
Variable browser : string -> page_view.
Variable sort : string.
Variable n : Z.

(** The state of the [while] loop, with the addresses requested so far. *)
Record loop_state := {
  page_no : Z;
  seen : gset key;
  out : list RepoRow;
  visited : list string
}.

Definition initial : loop_state :=
  {| page_no := 1; seen := ∅; out := []; visited := [] |}.

Definition loop_test (st : loop_state) : bool :=
  (Z.of_nat (length (out st)) <? n) && (page_no st <=? PAGE_CEILING).

(** One iteration of the loop body: the new state, and whether the loop
    is left by the [break] on an empty batch. *)
Definition loop_body (st : loop_state) : loop_state * bool :=
  let url := search_url sort (page_no st) in
  let batch := page_batch (browser url) in
  let '(seen', out') := accumulate n batch (seen st) (out st) in
  match batch with
  | [] => ({| page_no := page_no st; seen := seen'; out := out';
              visited := visited st ++ [url] |}, true)
  | _ => ({| page_no := page_no st + 1; seen := seen'; out := out';
             visited := visited st ++ [url] |}, false)
  end.

(** The [while] loop; [None] when [fuel] iterations were not enough. *)
Fixpoint fetch_loop (fuel : nat) (st : loop_state) : option loop_state :=
  if loop_test st then
    match fuel with
    | O => None
    | S fuel' =>
        let '(st', stop) := loop_body st in
        if stop then Some st' else fetch_loop fuel' st'
    end
  else Some st.

(** [fetch_sorted(sort, n)]: the addresses requested and the rows returned. *)
Definition fetch_sorted : option (list string * list RepoRow) :=
  match fetch_loop (Z.to_nat PAGE_CEILING) initial with
  | Some st => Some (visited st, slice_to (out st) n)
  | None => None
  end.

End FetchLoop.

(** * Properties *)

(** ** Text *)

Section TextFacts.
Import Text.

Lemma digit_val_range c d : digit_val c = Some d -> 0 <= d <= 9.
Proof.
  unfold digit_val, is_digit, in_range. destruct (_ && _) eqn:E; [|discriminate].
  intros [= <-]. apply andb_true_iff in E as [E1 E2].
  apply N.leb_le in E1, E2. lia.
Qed.

Lemma int_digits_nonneg s : forall acc b z,
  0 <= acc -> int_digits s acc b = Some z -> 0 <= z.
Proof.
  induction s as [|c s IH]; simpl; intros acc b z Hacc.
  - destruct b; [discriminate|]. intros [= <-]. exact Hacc.
  - destruct (digit_val c) as [d|] eqn:Ed.
    + apply digit_val_range in Ed. apply IH. lia.
    + destruct b; [discriminate|].
      destruct (Ascii.eqb c "_"); [apply IH; exact Hacc|].
      destruct (is_int_space c && all_space s); [|discriminate].
      intros [= <-]. exact Hacc.
Qed.

Lemma int_body_nonneg s z : int_body s = Some z -> 0 <= z.
Proof.
  destruct s as [|c s]; simpl; [discriminate|].
  destruct (digit_val c) as [d|] eqn:Ed; [|discriminate].
  apply digit_val_range in Ed. apply int_digits_nonneg. lia.
Qed.

Lemma has_char_skip_space c s : has_char c s = false -> has_char c (skip_space s) = false.
Proof.
  induction s as [|a s IH]; simpl; [done|].
  intros H. apply orb_false_iff in H as [Ha Hs].
  destruct (is_int_space a); [auto|]. simpl. by rewrite Ha, Hs.
Qed.

Lemma has_char_remove_char c d s :
  has_char c s = false -> has_char c (remove_char d s) = false.
Proof.
  induction s as [|a s IH]; simpl; [done|].
  intros H. apply orb_false_iff in H as [Ha Hs].
  destruct (Ascii.eqb a d); simpl; [auto|]. rewrite Ha. auto.
Qed.

(** A negative result of [int()] needs a minus sign in the text. *)
Lemma py_int_nonneg s z : has_char "-" s = false -> py_int s = Some z -> 0 <= z.
Proof.
  intros H. apply has_char_skip_space in H. unfold py_int.
  destruct (skip_space s) as [|c t]; [discriminate|].
  simpl in H. apply orb_false_iff in H as [Hc _]. rewrite Hc.
  destruct (Ascii.eqb c "+"); apply int_body_nonneg.
Qed.

Lemma all_chars_impl (p q : ascii -> bool) s :
  (forall c, p c = true -> q c = true) -> all_chars p s = true -> all_chars q s = true.
Proof.
  intros Hpq. induction s as [|c s IH]; simpl; [done|].
  intros H. apply andb_true_iff in H as [Hc Hs]. by rewrite (Hpq _ Hc), IH.
Qed.

Lemma all_chars_app p s t :
  all_chars p (s +:+ t) = all_chars p s && all_chars p t.
Proof. induction s as [|c s IH]; simpl; [done|]. by rewrite IH, andb_assoc. Qed.

Lemma all_chars_has_char p c s :
  p c = false -> all_chars p s = true -> has_char c s = false.
Proof.
  intros Hc. induction s as [|a s IH]; simpl; [done|].
  intros H. apply andb_true_iff in H as [Ha Hs]. rewrite (IH Hs), orb_false_r.
  destruct (Ascii.eqb_spec a c) as [->|]; [congruence|done].
Qed.

End TextFacts.

Lemma stars_of_text_nonneg s : Text.has_char "-" s = false -> 0 <= stars_of_text s.
Proof.
  intros H. unfold stars_of_text.
  destruct (Text.py_int _) as [z|] eqn:E; [|lia].
  eapply py_int_nonneg; [|exact E]. by apply has_char_remove_char.
Qed.

(** ** Captured groups *)

Module RxFacts.
Import Rx.

(** Every consuming item that sits inside a group accepts characters of
    class [p] only. *)
Fixpoint guarded (p : ascii -> bool) (inside : bool) (r : regex) : Prop :=
  match r with
  | [] => True
  | Chr q :: r' | Many q :: r' | Maybe q :: r' =>
      (inside = true -> forall c, q c = true -> p c = true) /\ guarded p inside r'
  | GOpen :: r' => guarded p true r'
  | GClose :: r' => guarded p false r'
  | Bos :: r' | Eos :: r' => guarded p inside r'
  end.

Definition cur_ok (p : ascii -> bool) (inside : bool) (cur : option string) : Prop :=
  match cur with
  | Some t => inside = true /\ Text.all_chars p t = true
  | None => True
  end.

Definition caps_ok (p : ascii -> bool) (caps : list string) : Prop :=
  Forall (fun t => Text.all_chars p t = true) caps.

Lemma push_ok p q inside c cur :
  (inside = true -> forall c, q c = true -> p c = true) ->
  q c = true -> cur_ok p inside cur -> cur_ok p inside (push c cur).
Proof.
  intros Hq Hc. destruct cur as [t|]; simpl; [|done].
  intros [Hin Ht]. split; [done|].
  rewrite all_chars_app, Ht. simpl. by rewrite (Hq Hin c Hc).
Qed.

Lemma run_many q r s pos cur caps :
  run (Many q :: r) s pos cur caps =
  match s with
  | String c s' =>
      if q c then or_else (run (Many q :: r) s' (S pos) (push c cur) caps)
                          (run r s pos cur caps)
      else run r s pos cur caps
  | EmptyString => run r s pos cur caps
  end.
Proof. by destruct s. Qed.

Lemma or_else_Some {A} (a b : option A) x :
  or_else a b = Some x -> a = Some x \/ b = Some x.
Proof. destruct a; simpl; auto. Qed.

Lemma run_caps_ok p r : forall inside s pos cur caps res,
  guarded p inside r -> cur_ok p inside cur -> caps_ok p caps ->
  run r s pos cur caps = Some res -> caps_ok p res.
Proof.
  induction r as [|it r IH]; intros inside s pos cur caps res Hg Hcur Hcaps.
  - simpl. by intros [= <-].
  - destruct it as [q|q|q| | | |]; simpl in Hg.
    + destruct Hg as [Hq Hg]. simpl. destruct s as [|c s]; [done|].
      destruct (q c) eqn:Ec; [|done].
      apply (IH inside); [done| |done]. by apply (push_ok p q).
    + destruct Hg as [Hq Hg]. revert pos cur Hcur.
      induction s as [|c s IHs]; intros pos cur Hcur; rewrite run_many.
      * by apply (IH inside).
      * destruct (q c) eqn:Ec; [|by apply (IH inside)].
        intros [H|H]%or_else_Some.
        -- apply (IHs (S pos) (push c cur)); [|done]. by apply (push_ok p q).
        -- revert H. by apply (IH inside).
    + destruct Hg as [Hq Hg]. simpl. destruct s as [|c s]; [by apply (IH inside)|].
      destruct (q c) eqn:Ec; [|by apply (IH inside)].
      intros [H|H]%or_else_Some; revert H.
      * apply (IH inside); [done| |done]. by apply (push_ok p q).
      * by apply (IH inside).
    + simpl. by apply (IH true).
    + simpl. apply (IH false); [done..|].
      apply Forall_app; split; [done|]. apply Forall_cons; split; [|done].
      destruct cur as [t|]; simpl; [by destruct Hcur|done].
    + simpl. destruct (Nat.eqb pos 0); [|done]. by apply (IH inside).
    + simpl. destruct (at_end s); [|done]. by apply (IH inside).
Qed.

Lemma search_from_caps_ok p r s : forall pos res,
  guarded p false r -> search_from r s pos = Some res -> caps_ok p res.
Proof.
  induction s as [|c s IH]; intros pos res Hg; simpl;
    destruct (run r _ pos None []) as [caps|] eqn:E.
  - intros [= <-]. eapply run_caps_ok; eauto; by constructor.
  - done.
  - intros [= <-]. eapply run_caps_ok; eauto; by constructor.
  - by apply IH.
Qed.

Lemma nth_caps_ok p i caps :
  caps_ok p caps -> Text.all_chars p (nth i caps EmptyString) = true.
Proof.
  intros H. revert i. induction H as [|t caps Ht _ IH]; intros [|i]; simpl; auto.
Qed.

End RxFacts.

(** ** Markup extractor: shape of the rows *)

Lemma repo_link_guarded : RxFacts.guarded (Rx.except "/") false RX_REPO_LINK.
Proof. cbn. repeat split; intros; (discriminate || assumption). Qed.

Lemma stars_after_guarded : RxFacts.guarded Rx.is_digit_or_comma false RX_STARS_AFTER.
Proof. cbn. repeat split; intros; (discriminate || assumption). Qed.

Lemma stars_before_guarded : RxFacts.guarded Rx.is_digit_or_comma false RX_STARS_BEFORE.
Proof. cbn. repeat split; intros; (discriminate || assumption). Qed.

Lemma m_all_chars p rx s t :
  RxFacts.guarded p false rx -> _m rx s = Some t -> Text.all_chars p t = true.
Proof.
  intros Hg. unfold _m, Rx.search.
  destruct (Rx.search_from rx s 0) as [caps|] eqn:E; [|done].
  intros [= <-]. apply RxFacts.nth_caps_ok. by eapply RxFacts.search_from_caps_ok.
Qed.

Lemma or_text_all_chars p a b :
  (forall t, a = Some t -> Text.all_chars p t = true) ->
  Text.all_chars p b = true -> Text.all_chars p (or_text a b) = true.
Proof.
  intros Ha Hb. destruct a as [t|]; simpl; [|done].
  destruct (Text.is_empty t); [done|]. by apply Ha.
Qed.

Lemma row_of_anchor_inv a r :
  row_of_anchor a = Some r ->
  exists m, Rx.rmatch RX_REPO_LINK (href a) = Some m /\
    name r = Rx.group2 m /\ owner r = Rx.group1 m /\
    stars r = stars_of_text
                (or_text (_m RX_STARS_AFTER (text a))
                         (or_text (_m RX_STARS_BEFORE (text a)) "0")) /\
    url r = ORIGIN +:+ href a.
Proof.
  unfold row_of_anchor. destruct (Rx.rmatch _ _) as [m|]; [|done].
  intros [= <-]. by exists m.
Qed.

(** The names and owners scraped from markup hold no separator. *)
Lemma row_of_anchor_no_slash a r :
  row_of_anchor a = Some r ->
  Text.has_char "/" (name r) = false /\ Text.has_char "/" (owner r) = false.
Proof.
  intros (m & Hm & -> & -> & _)%row_of_anchor_inv.
  assert (RxFacts.caps_ok (Rx.except "/") m) as Hcaps.
  { eapply (RxFacts.run_caps_ok _ _ false); [exact repo_link_guarded| | |exact Hm];
      by constructor. }
  split; (eapply all_chars_has_char; [|by apply RxFacts.nth_caps_ok]); done.
Qed.

Lemma row_of_anchor_stars a r : row_of_anchor a = Some r -> 0 <= stars r.
Proof.
  intros (m & _ & _ & _ & -> & _)%row_of_anchor_inv.
  apply stars_of_text_nonneg.
  eapply (all_chars_has_char Rx.is_digit_or_comma); [done|].
  apply or_text_all_chars; [intros t; apply m_all_chars, stars_after_guarded|].
  apply or_text_all_chars; [intros t; apply m_all_chars, stars_before_guarded|done].
Qed.

Lemma elem_of_parse_from_dom r anchors :
  r ∈ parse_from_dom anchors <-> exists a, a ∈ anchors /\ row_of_anchor a = Some r.
Proof. unfold parse_from_dom. apply list_elem_of_omap. Qed.

(** ** Structured extractor: shape of the rows *)

Definition ns_of (d : list (string * json)) : json :=
  first_truthy [dict_get d "namespace"; dict_get d "publisher"; dict_get d "orgname"]
               (JStr "").

Definition base_name_of (d : list (string * json)) : json :=
  first_truthy [dict_get d "name"; dict_get d "slug"; dict_get d "repo_name";
                dict_get d "display_name"] (JStr "").

Definition pulls_val_of (d : list (string * json)) : json :=
  first_truthy [dict_get d "pulls"; dict_get d "pull_count_str"; dict_get d "pull_count"]
               (JStr "").

Definition star_val_of (d : list (string * json)) : json :=
  first_truthy [dict_get d "star_count"; dict_get d "stars"] (JInt 0).

Lemma row_of_entry_inv d r :
  row_of_entry (JDict d) = Ok (Some r) ->
  exists link,
    split_owner_repo (ns_of d) (base_name_of d) = Ok (owner r, name r) /\
    Text.is_empty (owner r) = false /\ Text.is_empty (name r) = false /\
    rebase (py_or (dict_get d "href") (JStr ("/r/" +:+ owner r +:+ "/" +:+ name r)))
      = Ok link /\
    url r = link /\
    pulls r = pulls_text (pulls_val_of d) /\
    stars r = stars_of_text (py_str (star_val_of d)).
Proof.
  unfold row_of_entry. fold (ns_of d) (base_name_of d) (pulls_val_of d) (star_val_of d).
  destruct (split_owner_repo _ _) as [[o rp]|e]; simpl; [|done].
  destruct (negb (Text.is_empty o) && negb (Text.is_empty rp)) eqn:Eb; simpl; [|done].
  destruct (rebase _) as [link|e] eqn:El; simpl; [|done].
  intros [= <-]. simpl. exists link.
  apply andb_true_iff in Eb as [Ho Hr].
  apply negb_true_iff in Ho, Hr. done.
Qed.

Lemma first_truthy_cases alts last :
  first_truthy alts last = last \/ truthy (first_truthy alts last) = true.
Proof.
  induction alts as [|a alts IH]; simpl; [by left|].
  unfold py_or. destruct (truthy a) eqn:Ea; [by right|done].
Qed.

Lemma first_truthy_all_falsy alts last :
  Forall (fun v => truthy v = false) alts -> first_truthy alts last = last.
Proof.
  induction 1 as [|a alts Ha _ IH]; simpl; [done|].
  unfold py_or. by rewrite Ha.
Qed.

Lemma split_once_spec c s :
  Text.has_char c s = true ->
  s = (Text.split_once c s).1 +:+ String c (Text.split_once c s).2 /\
  Text.has_char c (Text.split_once c s).1 = false.
Proof.
  induction s as [|a s IH]; simpl; [done|].
  destruct (Ascii.eqb_spec a c) as [->|Hne]; simpl; [done|].
  intros [Heq Hl]%IH. destruct (Text.split_once c s) as [l r]; simpl in *.
  split; [by rewrite Heq at 1|].
  rewrite Hl, orb_false_r. by apply Ascii.eqb_neq.
Qed.

Lemma or_empty_strip_text s : or_empty_strip (JStr s) = Ok (Text.strip "/" s).
Proof. unfold or_empty_strip, py_or. simpl. by destruct s. Qed.

(** * The claims *)

(** ** Structured extractor *)

Definition nginx_entry : json :=
  JDict [("namespace", JStr "library"); ("name", JStr "nginx");
         ("star_count", JStr "20,000"); ("pull_count", JInt 1000000000)].

Definition nginx_payload : json := JDict [("results", JList [nginx_entry])].

(** C1.  The payload
    [{"results":[{"namespace":"library","name":"nginx","star_count":"20,000","pull_count":1000000000}]}]
    gives exactly one Record: name nginx, owner library, pulls
    1,000,000,000, stars 20000, and the address synthesized from owner and
    name since the entry has no href. *)
Theorem parse_search_json_nginx :
  parse_search_json nginx_payload =
  Ok [{| name := "nginx"; owner := "library"; pulls := "1,000,000,000";
         stars := 20000; last_updated := "";
         url := "https://hub.docker.com/r/library/nginx" |}].
Proof. reflexivity. Qed.

(** C3, at the input [{"results":[{"name":"a/b/c"}]}]: the name is split
    once, so the Record's name is [b/c] and still holds a separator. *)
Theorem parse_search_json_name_keeps_separator :
  exists r,
    parse_search_json (JDict [("results", JList [JDict [("name", JStr "a/b/c")]])])
      = Ok [r] /\
    owner r = "a" /\ name r = "b/c" /\ Text.has_char "/" (name r) = true.
Proof. eexists. split; [reflexivity|]. by repeat split. Qed.

(** C4, as the code has it.  After trimming separators from both ends, a
    name that holds a separator is split at the first one and the text
    before it becomes the owner whatever the namespace field says; the
    namespace field is the owner only for a name without separator.  Name
    [library/nginx] with an empty namespace gives owner [library] and name
    [nginx]; namespace [library] with name [nginx] is returned unchanged. *)
Theorem split_owner_repo_first_separator (ns nm : string) :
  ((Text.has_char "/" (Text.strip "/" nm) = true /\
    exists o r, split_owner_repo (JStr ns) (JStr nm) = Ok (o, r) /\
                Text.strip "/" nm = o +:+ String "/" r /\
                Text.has_char "/" o = false)
   \/
   (Text.has_char "/" (Text.strip "/" nm) = false /\
    split_owner_repo (JStr ns) (JStr nm) = Ok (Text.strip "/" ns, Text.strip "/" nm)))
  /\ split_owner_repo (JStr "") (JStr "library/nginx") = Ok ("library", "nginx")
  /\ split_owner_repo (JStr "library") (JStr "nginx") = Ok ("library", "nginx").
Proof.
  split; [|by split].
  unfold split_owner_repo. rewrite !or_empty_strip_text. simpl.
  destruct (Text.has_char "/" (Text.strip "/" nm)) eqn:E; [left|by right].
  split; [done|]. destruct (split_once_spec _ _ E) as [Heq Hl].
  exists (Text.split_once "/" (Text.strip "/" nm)).1,
         (Text.split_once "/" (Text.strip "/" nm)).2.
  split; [by destruct (Text.split_once _ _)|done].
Qed.

(** C4 fails as stated: with namespace [acme] present and name
    [library/nginx], the owner is [library], not the explicit namespace. *)
Lemma split_owner_repo_ignores_namespace :
  split_owner_repo (JStr "acme") (JStr "library/nginx") = Ok ("library", "nginx").
Proof. reflexivity. Qed.

(** C6, as the code has it.  The stars of a Record are the integer read
    from the star-count text with its commas removed ([12,345] gives
    12345), 0 when that text is not an integer ([abc]) and 0 when the field
    is absent; reading it never raises.  The result is at least 0 whenever
    the text holds no minus sign, which is so for every Record scraped
    from markup; a negative star count in a payload is kept as it is. *)
Theorem stars_parsed_or_zero :
  (forall d r, row_of_entry (JDict d) = Ok (Some r) ->
     stars r = stars_of_text (py_str (star_val_of d)) /\
     (truthy (dict_get d "star_count") = false ->
      truthy (dict_get d "stars") = false -> stars r = 0) /\
     (Text.has_char "-" (py_str (star_val_of d)) = false -> 0 <= stars r))
  /\ (forall anchors r, r ∈ parse_from_dom anchors -> 0 <= stars r)
  /\ stars_of_text "12,345" = 12345
  /\ stars_of_text "abc" = 0.
Proof.
  split; [|split; [|by split]].
  - intros d r (link & _ & _ & _ & _ & _ & _ & Hs)%row_of_entry_inv.
    split; [done|]. split.
    + intros H1 H2. rewrite Hs. unfold star_val_of.
      rewrite first_truthy_all_falsy; [done|]. by repeat constructor.
    + intros H. rewrite Hs. by apply stars_of_text_nonneg.
  - intros anchors r (a & _ & Ha)%elem_of_parse_from_dom.
    by eapply row_of_anchor_stars.
Qed.

Lemma stars_parsed_or_zero_witness :
  let d := [("namespace", JStr "library"); ("name", JStr "nginx"); ("stars", JStr "1,234")] in
  let r := {| name := "nginx"; owner := "library"; pulls := ""; stars := 1234;
              last_updated := ""; url := "https://hub.docker.com/r/library/nginx" |} in
  let a := {| href := "/r/foo/bar"; text := "bar 3,100 Stars" |} in
  row_of_entry (JDict d) = Ok (Some r) /\
  Text.has_char "-" (py_str (star_val_of d)) = false /\
  0 <= stars r /\
  (forall r', r' ∈ parse_from_dom [a] -> 0 <= stars r').
Proof.
  intros d r a.
  destruct stars_parsed_or_zero as (Hjson & Hdom & _).
  split; [reflexivity|]. split; [reflexivity|]. split.
  - apply (Hjson d r eq_refl). reflexivity.
  - apply Hdom.
Defined.

(** C6 fails as stated: a payload entry with star count -5 gives a Record
    whose stars are -5, below 0. *)
Lemma stars_negative :
  exists r,
    parse_search_json
      (JDict [("results", JList [JDict [("namespace", JStr "library");
                                        ("name", JStr "nginx");
                                        ("star_count", JInt (-5))]])]) = Ok [r] /\
    stars r = -5.
Proof. eexists. split; reflexivity. Qed.

(** C10.  When the fields [pulls], [pull_count_str] and [pull_count] of an
    entry are all absent or falsy, a pull count of integer 0 included, the
    Record's pulls are the empty string; the digit-grouped rendering is
    given to a non-zero integer (and to [True], an integer in Python), any
    other value is passed through [str]. *)
Theorem pulls_empty_when_falsy d r :
  row_of_entry (JDict d) = Ok (Some r) ->
  (truthy (dict_get d "pulls") = false ->
   truthy (dict_get d "pull_count_str") = false ->
   truthy (dict_get d "pull_count") = false -> pulls r = "") /\
  match pulls_val_of d with
  | JInt z => z <> 0 /\ pulls r = Text.format_grouped z
  | JBool b => b = true /\ pulls r = "1"
  | v => pulls r = py_str v
  end.
Proof.
  intros (link & _ & _ & _ & _ & _ & Hp & _)%row_of_entry_inv.
  assert (truthy (dict_get d "pulls") = false ->
          truthy (dict_get d "pull_count_str") = false ->
          truthy (dict_get d "pull_count") = false -> pulls r = "") as Hfalsy.
  { intros H1 H2 H3. rewrite Hp. unfold pulls_val_of.
    rewrite first_truthy_all_falsy; [done|]. by repeat constructor. }
  split; [done|].
  rewrite Hp. unfold pulls_val_of.
  destruct (first_truthy_cases
              [dict_get d "pulls"; dict_get d "pull_count_str"; dict_get d "pull_count"]
              (JStr "")) as [->|Ht]; [done|].
  destruct (first_truthy _ _) as [|b|z| | | |]; simpl in *; try done.
  - by subst b.
  - split; [|done]. intros ->. done.
Qed.

Lemma pulls_empty_when_falsy_witness :
  let d := [("namespace", JStr "library"); ("name", JStr "nginx"); ("pull_count", JInt 0)] in
  let r := {| name := "nginx"; owner := "library"; pulls := ""; stars := 0;
              last_updated := ""; url := "https://hub.docker.com/r/library/nginx" |} in
  row_of_entry (JDict d) = Ok (Some r) /\
  truthy (dict_get d "pulls") = false /\
  truthy (dict_get d "pull_count_str") = false /\
  truthy (dict_get d "pull_count") = false /\
  pulls r = "".
Proof.
  intros d r. repeat (split; [reflexivity|]).
  apply (pulls_empty_when_falsy d r eq_refl); reflexivity.
Defined.

(** ** Raising *)

Definition is_text (v : json) : bool :=
  match v with
  | JStr _ => true
  | _ => false
  end.

Definition text_or_falsy (v : json) : bool := negb (truthy v) || is_text v.

(** The fields on which the extractor calls string methods. *)
Definition TEXT_KEYS : list string :=
  ["namespace"; "publisher"; "orgname"; "name"; "slug"; "repo_name"; "display_name";
   "href"].

(** An entry that is a mapping whose text fields are each absent, falsy or
    a string. *)
Definition plain_entry (it : json) : bool :=
  match it with
  | JDict d => forallb (fun k => text_or_falsy (dict_get d k)) TEXT_KEYS
  | _ => false
  end.

Definition candidates_of (payload : list (string * json)) : list json :=
  default [] (find_candidates payload).

Lemma py_or_text a b : text_or_falsy a = true -> is_text b = true -> is_text (py_or a b) = true.
Proof.
  unfold py_or, text_or_falsy. destruct (truthy a); simpl; [|done]. by intros ->.
Qed.

Lemma or_empty_strip_ok v : is_text v = true -> exists s, or_empty_strip v = Ok s.
Proof.
  destruct v; try done. intros _. eexists. apply or_empty_strip_text.
Qed.

Lemma rebase_ok v : is_text v = true -> exists s, rebase v = Ok s.
Proof. destruct v; try done. intros _. by eexists. Qed.

Lemma row_of_entry_plain it : plain_entry it = true -> exists r, row_of_entry it = Ok r.
Proof.
  destruct it as [| | | | | |d]; try done. intros H. simpl in H.
  rewrite !andb_true_iff in H. destruct H as (H1 & H2 & H3 & H4 & H5 & H6 & H7 & H8 & _).
  assert (is_text (ns_of d) = true) as Hns by (repeat apply py_or_text; done).
  assert (is_text (base_name_of d) = true) as Hnm by (repeat apply py_or_text; done).
  unfold row_of_entry. fold (ns_of d) (base_name_of d).
  unfold split_owner_repo.
  destruct (or_empty_strip_ok _ Hns) as [o ->].
  destruct (or_empty_strip_ok _ Hnm) as [b ->]. simpl.
  match goal with |- context [mbind _ (if ?c then Ok ?x else Ok ?y)] =>
    replace (if c then Ok x else Ok y) with (Ok (if c then x else y)) by (by destruct c);
    destruct (if c then x else y) as [own rp] end.
  simpl.
  destruct (negb (Text.is_empty own) && negb (Text.is_empty rp)); simpl; [|by eexists].
  destruct (rebase_ok (py_or (dict_get d "href") (JStr ("/r/" +:+ own +:+ "/" +:+ rp))))
    as [link ->]; [by apply py_or_text|]. simpl. by eexists.
Qed.

Lemma rows_of_plain cands : forall rows,
  Forall (fun it => plain_entry it = true) cands ->
  exists rows', rows_of cands rows = Ok rows' /\
                (length rows' <= length rows + length cands)%nat.
Proof.
  induction cands as [|it cands IH]; intros rows Hall; simpl.
  - exists rows. split; [done|lia].
  - apply Forall_cons in Hall as [Hit Hall].
    destruct (row_of_entry_plain _ Hit) as [[row|] ->]; simpl.
    + destruct (IH (rows ++ [row]) Hall) as (rows' & -> & Hlen).
      exists rows'. split; [done|]. rewrite length_app in Hlen. simpl in Hlen. lia.
    + destruct (IH rows Hall) as (rows' & -> & Hlen). exists rows'. split; [done|lia].
Qed.

(** C2, as the code has it.  For a mapping payload in which every entry of
    the candidate sequence is a mapping whose namespace-like, name-like and
    href fields are each absent, falsy or a string, the extractor returns
    Records, at most one per entry, and does not raise, whatever the other
    fields hold. *)
Theorem parse_search_json_plain_entries payload :
  Forall (fun it => plain_entry it = true) (candidates_of payload) ->
  exists rows, parse_search_json (JDict payload) = Ok rows /\
               (length rows <= length (candidates_of payload))%nat.
Proof.
  unfold candidates_of, parse_search_json.
  destruct (find_candidates payload) as [[|it cands]|]; simpl.
  - exists []. by split.
  - intros H. by apply (rows_of_plain (it :: cands) []).
  - exists []. by split.
Qed.

Definition odd_payload : list (string * json) :=
  [("meta", JInt 3);
   ("results", JList [JDict [("namespace", JStr "library"); ("name", JStr "nginx");
                             ("pulls", JList [JFloat "1.5"]); ("stars", JDict []);
                             ("last_updated", JBool true)];
                      JDict [("publisher", JInt 0); ("slug", JNull)]])].

Lemma parse_search_json_plain_entries_witness :
  Forall (fun it => plain_entry it = true) (candidates_of odd_payload) /\
  exists rows, parse_search_json (JDict odd_payload) = Ok rows /\
               (length rows <= length (candidates_of odd_payload))%nat.
Proof.
  assert (Forall (fun it => plain_entry it = true) (candidates_of odd_payload)) as H
    by (repeat constructor).
  split; [exact H|]. exact (parse_search_json_plain_entries odd_payload H).
Defined.

(** C2 fails as stated: a candidate sequence with an entry that is not a
    mapping makes the extractor raise. *)
Lemma parse_search_json_raises :
  parse_search_json (JDict [("results", JList [JStr "nginx"])]) = Raise AttributeError.
Proof. reflexivity. Qed.

(** The caller absorbs whatever the extractor raises. *)
Lemma maybe_parse_absorbs resp payload :
  resp_json resp = Some payload -> raises (parse_search_json payload) ->
  maybe_parse resp = [].
Proof.
  intros Hj [e He]. unfold maybe_parse. rewrite Hj, He.
  by repeat case_match.
Qed.

(** ** Locating the candidate sequence *)

Definition nested_list (v : json) : option (list json) :=
  match v with
  | JDict d => first_list_under NESTED_KEYS d
  | _ => None
  end.

Lemma scan_values_skip pre rest : forall cand,
  cand_truthy cand = false ->
  Forall (fun v => cand_truthy (nested_list v) = false) pre ->
  exists cand', cand_truthy cand' = false /\
                scan_values (pre ++ rest) cand = scan_values rest cand'.
Proof.
  induction pre as [|v pre IH]; intros cand Hc Hpre; cbn [app scan_values].
  - by exists cand.
  - apply Forall_cons in Hpre as [Hv Hpre].
    set (cand' := match v with
                  | JDict d => match first_list_under NESTED_KEYS d with
                               | Some xs => Some xs
                               | None => cand
                               end
                  | _ => cand
                  end).
    assert (cand_truthy cand' = false) as Hc'.
    { subst cand'. destruct v; try done. unfold nested_list in Hv.
      by destruct (first_list_under NESTED_KEYS kvs). }
    rewrite Hc'. by apply IH.
Qed.

(** C5, as the code has it.  When the top level gives no non-empty
    candidate list, the values of the payload are visited in insertion
    order; in each value that is an object the first of the keys
    [summaries], [results], [items] bound to a list is taken ([data] is not
    among them), and the first non-empty list found this way supplies the
    entries. *)
Theorem nested_candidates_found pre x d post xs :
  cand_truthy (first_list_under CANDIDATE_KEYS (pre ++ (x, JDict d) :: post)) = false ->
  Forall (fun kv => cand_truthy (nested_list kv.2) = false) pre ->
  first_list_under NESTED_KEYS d = Some xs ->
  xs <> [] ->
  find_candidates (pre ++ (x, JDict d) :: post) = Some xs /\
  parse_search_json (JDict (pre ++ (x, JDict d) :: post)) = rows_of xs [].
Proof.
  intros Htop Hpre Hd Hne.
  assert (find_candidates (pre ++ (x, JDict d) :: post) = Some xs) as Hfind.
  { unfold find_candidates. rewrite Htop, map_app. cbn [map snd].
    destruct (scan_values_skip (map snd pre) (JDict d :: map snd post) _ Htop)
      as (cand' & Hc' & ->).
    { by apply Forall_map. }
    cbn [scan_values]. rewrite Hd. by destruct xs. }
  split; [done|]. unfold parse_search_json. rewrite Hfind. by destruct xs.
Qed.

Lemma nested_candidates_found_witness :
  let pre := [("total", JInt 1); ("meta", JDict [("items", JList [])])] in
  let d := [("data", JList [JInt 7]); ("results", JList [nginx_entry])] in
  cand_truthy (first_list_under CANDIDATE_KEYS (pre ++ [("search", JDict d)])) = false /\
  Forall (fun kv => cand_truthy (nested_list kv.2) = false) pre /\
  first_list_under NESTED_KEYS d = Some [nginx_entry] /\
  [nginx_entry] <> [] /\
  find_candidates (pre ++ [("search", JDict d)]) = Some [nginx_entry] /\
  parse_search_json (JDict (pre ++ [("search", JDict d)])) = rows_of [nginx_entry] [].
Proof.
  intros pre d.
  assert (Forall (fun kv => cand_truthy (nested_list kv.2) = false) pre) as Hpre
    by (repeat constructor).
  assert ([nginx_entry] <> []) as Hne by discriminate.
  split; [reflexivity|]. split; [exact Hpre|]. split; [reflexivity|]. split; [exact Hne|].
  exact (nested_candidates_found pre "search" d [] [nginx_entry] eq_refl Hpre eq_refl Hne).
Defined.

(** C5 fails as stated: a payload whose only list sits under [data] inside
    a nested object gives no Records. *)
Lemma nested_data_not_found :
  parse_search_json (JDict [("search", JDict [("data", JList [nginx_entry])])]) = Ok [].
Proof. reflexivity. Qed.

(** A list under [data] one level down is never looked at. *)
Lemma nested_data_not_searched x xs :
  parse_search_json (JDict [(x, JDict [("data", JList xs)])]) = Ok [].
Proof.
  unfold parse_search_json, find_candidates. simpl.
  by repeat (destruct (String.eqb x _)).
Qed.

(** ** Markup extractor *)

(** C9.  An anchor with address [/r/foo/bar] and visible text
    [bar Pulls. 5M+ Stars. 12] gives one Record: owner foo, name bar, pulls
    5M+, stars 12, and the address with the service origin prepended; it is
    the batch of a page on which no structured response was captured. *)
Theorem parse_from_dom_foo_bar :
  let a := {| href := "/r/foo/bar"; text := "bar Pulls. 5M+ Stars. 12" |} in
  let r := {| name := "bar"; owner := "foo"; pulls := "5M+"; stars := 12;
              last_updated := ""; url := "https://hub.docker.com/r/foo/bar" |} in
  parse_from_dom [a] = [r] /\
  page_batch {| responses := []; content := [a] |} = [r].
Proof. split; reflexivity. Qed.

(** ** De-duplication *)

Section Accumulate.

Variable n : Z.

(** What holds of the seen-set and the accumulation in every state the
    loop reaches. *)
Definition consistent (seen : gset key) (out : list RepoRow) : Prop :=
  NoDup (key_of <$> out) /\ forall r, r ∈ out -> key_of r ∈ seen.

Lemma consistent_snoc seen out r :
  consistent seen out -> key_of r ∉ seen ->
  consistent ({[key_of r]} ∪ seen) (out ++ [r]).
Proof.
  intros [Hnd Hin] Hr. split.
  - rewrite fmap_app. apply NoDup_app. split; [done|]. split.
    + intros k (r' & Hk & Hr')%list_elem_of_fmap Hk'. simpl in Hk'.
      apply list_elem_of_singleton in Hk'. apply Hr.
      rewrite <- Hk', Hk. by apply Hin.
    + simpl. apply NoDup_singleton.
  - intros r' [Hr'| ->%list_elem_of_singleton]%elem_of_app.
    + apply elem_of_union_r. by apply Hin.
    + apply elem_of_union_l. by apply elem_of_singleton.
Qed.

Lemma accumulate_consistent batch : forall seen out,
  consistent seen out ->
  consistent (accumulate n batch seen out).1 (accumulate n batch seen out).2.
Proof.
  induction batch as [|r batch IH]; intros seen out Hc; simpl; [done|].
  destruct (decide (key_of r ∈ seen)) as [Hin|Hnin]; [by apply IH|].
  pose proof (consistent_snoc _ _ _ Hc Hnin) as Hc'.
  destruct (Z.of_nat (length (out ++ [r])) >=? n); [done|]. by apply IH.
Qed.

(** Below the quota the whole batch has been looked at. *)
Lemma accumulate_covers batch : forall seen out,
  Z.of_nat (length (accumulate n batch seen out).2) < n ->
  seen ⊆ (accumulate n batch seen out).1 /\
  forall r, r ∈ batch -> key_of r ∈ (accumulate n batch seen out).1.
Proof.
  induction batch as [|r batch IH]; intros seen out; simpl.
  - intros _. split; [done|]. by intros r ?%elem_of_nil.
  - destruct (decide (key_of r ∈ seen)) as [Hin|Hnin].
    + intros H. destruct (IH _ _ H) as [Hsub Hall]. split; [done|].
      intros r' [->|Hr']%elem_of_cons; [by apply Hsub|by apply Hall].
    + destruct (Z.of_nat (length (out ++ [r])) >=? n) eqn:E; simpl.
      * apply Z.geb_le in E. lia.
      * intros H. destruct (IH _ _ H) as [Hsub Hall]. split.
        { intros k Hk. by apply Hsub, elem_of_union_r. }
        intros r' [->|Hr']%elem_of_cons; [|by apply Hall].
        by apply Hsub, elem_of_union_l, elem_of_singleton.
Qed.

Lemma accumulate_all_seen batch seen out :
  (forall r, r ∈ batch -> key_of r ∈ seen) -> accumulate n batch seen out = (seen, out).
Proof.
  induction batch as [|r batch IH]; intros Hall; simpl; [done|].
  rewrite decide_True by (apply Hall; by left).
  apply IH. intros r' Hr'. apply Hall. by right.
Qed.

(** The step appends, in batch order, and stays within the quota when it
    starts below it. *)
Lemma accumulate_extends batch : forall seen out,
  exists extra, (accumulate n batch seen out).2 = out ++ extra /\ sublist extra batch.
Proof.
  induction batch as [|r batch IH]; intros seen out; simpl.
  - exists []. by rewrite app_nil_r.
  - destruct (decide (key_of r ∈ seen)) as [Hin|Hnin].
    + destruct (IH seen out) as (extra & -> & Hsub).
      exists extra. split; [done|]. by apply sublist_cons.
    + destruct (Z.of_nat (length (out ++ [r])) >=? n); simpl.
      * exists [r]. split; [done|]. apply sublist_skip, sublist_nil_l.
      * destruct (IH ({[key_of r]} ∪ seen) (out ++ [r])) as (extra & -> & Hsub).
        exists (r :: extra). split; [by rewrite <- app_assoc|]. by apply sublist_skip.
Qed.

Lemma accumulate_bound batch : forall seen out,
  Z.of_nat (length out) < n ->
  Z.of_nat (length (accumulate n batch seen out).2) <= n.
Proof.
  induction batch as [|r batch IH]; intros seen out Hlt; simpl; [lia|].
  destruct (decide (key_of r ∈ seen)) as [Hin|Hnin]; [by apply IH|].
  destruct (Z.of_nat (length (out ++ [r])) >=? n) eqn:E; simpl.
  - rewrite length_app. simpl. lia.
  - rewrite Z.geb_leb in E. apply Z.leb_gt in E. by apply IH.
Qed.

End Accumulate.

(** C8, as the code has it.  From a state whose accumulation holds no
    duplicate (owner, name) pair and whose seen-set holds the key of every
    accumulated Record, as in every state the loop reaches, the
    accumulation after the step holds no duplicate pair; and when the step
    ends with fewer than n Records accumulated, running it again on the
    same batch changes neither the accumulation nor the seen-set. *)
Theorem accumulate_idempotent_below_quota n batch seen out :
  NoDup (key_of <$> out) ->
  (forall r, r ∈ out -> key_of r ∈ seen) ->
  NoDup (key_of <$> (accumulate n batch seen out).2) /\
  (Z.of_nat (length (accumulate n batch seen out).2) < n ->
   accumulate n batch (accumulate n batch seen out).1 (accumulate n batch seen out).2
   = accumulate n batch seen out).
Proof.
  intros Hnd Hin. split.
  - by apply (accumulate_consistent n batch seen out).
  - intros [_ Hall]%accumulate_covers.
    rewrite (accumulate_all_seen n batch _ _ Hall). by destruct (accumulate _ _ _ _).
Qed.

Definition demo_row (o nm : string) : RepoRow :=
  {| name := nm; owner := o; pulls := ""; stars := 0; last_updated := ""; url := "" |}.

Lemma accumulate_idempotent_below_quota_witness :
  let batch := [demo_row "a" "x"; demo_row "b" "y"; demo_row "a" "x"] in
  let out := [demo_row "b" "y"] in
  let seen : gset key := {[("b", "y")]} in
  NoDup (key_of <$> out) /\
  (forall r, r ∈ out -> key_of r ∈ seen) /\
  Z.of_nat (length (accumulate 5 batch seen out).2) < 5 /\
  NoDup (key_of <$> (accumulate 5 batch seen out).2) /\
  accumulate 5 batch (accumulate 5 batch seen out).1 (accumulate 5 batch seen out).2
  = accumulate 5 batch seen out.
Proof.
  intros batch out seen.
  assert (NoDup (key_of <$> out)) as Hnd by apply NoDup_singleton.
  assert (forall r, r ∈ out -> key_of r ∈ seen) as Hin.
  { intros r ->%list_elem_of_singleton. by apply elem_of_singleton. }
  assert (Z.of_nat (length (accumulate 5 batch seen out).2) < 5) as Hlt by (vm_compute; reflexivity).
  destruct (accumulate_idempotent_below_quota 5 batch seen out Hnd Hin) as [H1 H2].
  split; [exact Hnd|]. split; [exact Hin|]. split; [exact Hlt|].
  split; [exact H1|exact (H2 Hlt)].
Defined.

(** C8 fails as stated: with quota 1 and a batch of two new Records, the
    step stops after the first; run again on the same batch it appends the
    second, so the keys after two runs are not those after one. *)
Lemma accumulate_twice_differs :
  let batch := [demo_row "a" "x"; demo_row "b" "y"] in
  let once := accumulate 1 batch ∅ [] in
  let twice := accumulate 1 batch once.1 once.2 in
  key_of <$> once.2 = [("a", "x")] /\
  key_of <$> twice.2 = [("a", "x"); ("b", "y")].
Proof. vm_compute. by split. Qed.

(** ** The fetch loop *)

Section FetchLoopFacts.

Variable browser : string -> page_view.
Variable sort : string.
Variable n : Z.

Local Abbreviation batch_at := (fun u => page_batch (browser u)).
Local Abbreviation urls k := (search_url sort <$> seqZ 1 k).

(** What holds each time the loop test is evaluated. *)
Definition loop_inv (st : loop_state) : Prop :=
  1 <= page_no st <= PAGE_CEILING + 1 /\
  visited st = urls (page_no st - 1) /\
  Z.of_nat (length (out st)) <= n /\
  sublist (out st) (concat (batch_at <$> visited st)).

(** What holds when the loop is left. *)
Definition loop_post (st : loop_state) : Prop :=
  Z.of_nat (length (out st)) <= n /\
  sublist (out st) (concat (batch_at <$> visited st)) /\
  (Z.of_nat (length (out st)) < n ->
   (exists u, last (visited st) = Some u /\ page_batch (browser u) = []) \/
   visited st = urls PAGE_CEILING).

Lemma loop_test_true st :
  loop_test n st = true ->
  Z.of_nat (length (out st)) < n /\ page_no st <= PAGE_CEILING.
Proof.
  unfold loop_test. intros [H1 H2]%andb_true_iff.
  apply Z.ltb_lt in H1. apply Z.leb_le in H2. done.
Qed.

Lemma loop_test_false st :
  loop_test n st = false ->
  n <= Z.of_nat (length (out st)) \/ PAGE_CEILING < page_no st.
Proof.
  unfold loop_test. intros [H|H]%andb_false_iff.
  - apply Z.ltb_ge in H. by left.
  - apply Z.leb_gt in H. by right.
Qed.

(** Once the quota is met the loop requests nothing more. *)
Lemma fetch_loop_quota_met fuel st :
  n <= Z.of_nat (length (out st)) -> fetch_loop browser sort n fuel st = Some st.
Proof.
  intros H. assert (loop_test n st = false) as Ht.
  { unfold loop_test. apply andb_false_iff. left. by apply Z.ltb_ge. }
  destruct fuel; simpl; by rewrite Ht.
Qed.

Lemma concat_snoc {A} (ls : list (list A)) (l : list A) :
  concat (ls ++ [l]) = concat ls ++ l.
Proof. rewrite concat_app. simpl. by rewrite app_nil_r. Qed.

Lemma loop_body_spec st :
  loop_inv st -> loop_test n st = true ->
  (snd (loop_body browser sort n st) = true ->
   loop_post (fst (loop_body browser sort n st))) /\
  (snd (loop_body browser sort n st) = false ->
   loop_inv (fst (loop_body browser sort n st))).
Proof.
  intros (Hp & Hv & Hlen & Hsub) [Hlt Hceil]%loop_test_true.
  unfold loop_body.
  pose proof (accumulate_bound n (page_batch (browser (search_url sort (page_no st))))
                (seen st) (out st) Hlt) as Hb.
  destruct (accumulate_extends n (page_batch (browser (search_url sort (page_no st))))
              (seen st) (out st)) as (extra & Hout & Hextra).
  destruct (accumulate n _ (seen st) (out st)) as [seen' out'] eqn:Eacc.
  simpl in Hb, Hout. subst out'.
  assert (sublist (out st ++ extra)
            (concat (batch_at <$> (visited st ++ [search_url sort (page_no st)])))) as Hsub'.
  { rewrite fmap_app. simpl. rewrite concat_snoc. by apply sublist_app. }
  destruct (page_batch (browser (search_url sort (page_no st)))) as [|r batch] eqn:Eb;
    simpl.
  - split; [intros _|done].
    split; [done|]. split; [done|]. intros _. left.
    exists (search_url sort (page_no st)). split; [apply last_snoc|done].
  - split; [done|intros _]. unfold loop_inv. simpl.
    split; [lia|]. split; [|done].
    rewrite Hv. replace (page_no st + 1 - 1) with ((page_no st - 1) + 1) by lia.
    rewrite seqZ_app by lia. rewrite fmap_app. simpl.
    by replace (1 + (page_no st - 1)) with (page_no st) by lia.
Qed.

(** The loop ends within the page ceiling. *)
Lemma fetch_loop_total fuel : forall st,
  loop_inv st -> PAGE_CEILING + 1 - page_no st <= Z.of_nat fuel ->
  exists st', fetch_loop browser sort n fuel st = Some st' /\ loop_post st'.
Proof.
  induction fuel as [|fuel IH]; intros st Hinv Hfuel.
  - simpl. destruct (loop_test n st) eqn:Et.
    + apply loop_test_true in Et. lia.
    + exists st. split; [done|]. destruct Hinv as (Hp & Hv & Hlen & Hsub).
      split; [done|]. split; [done|]. intros Hlt. right.
      apply loop_test_false in Et as [?|?]; [lia|].
      rewrite Hv. by replace (page_no st - 1) with PAGE_CEILING by lia.
  - simpl. destruct (loop_test n st) eqn:Et.
    + destruct (loop_body_spec st Hinv Et) as [Hstop Hgo].
      destruct (loop_body browser sort n st) as [st' stop] eqn:Eb. simpl in *.
      destruct stop.
      * exists st'. split; [done|]. by apply Hstop.
      * apply IH; [by apply Hgo|].
        assert (page_no st' = page_no st + 1) as ->; [|lia].
        unfold loop_body in Eb.
        destruct (accumulate n _ (seen st) (out st)) as [s o].
        destruct (page_batch _); by inversion Eb.
    + exists st. split; [done|]. destruct Hinv as (Hp & Hv & Hlen & Hsub).
      split; [done|]. split; [done|]. intros Hlt. right.
      apply loop_test_false in Et as [?|?]; [lia|].
      rewrite Hv. by replace (page_no st - 1) with PAGE_CEILING by lia.
Qed.

Lemma initial_inv : 0 <= n -> loop_inv initial.
Proof.
  intros Hn. unfold loop_inv, initial, PAGE_CEILING. simpl.
  split; [lia|]. split; [done|]. split; [lia|]. apply sublist_nil_l.
Qed.

End FetchLoopFacts.

(** C7, as the code has it.  For a quota n of at least 0: once the
    accumulation holds n Records the loop requests no further page; the
    loop always ends, and its output is the first n Records of the
    accumulation, which lists Records in the order the fetched pages gave
    them, so the output is never longer than n; it is shorter than n only
    when the last page fetched gave an empty batch or all 50 pages up to
    the ceiling were fetched. *)
Theorem fetch_sorted_quota browser sort n :
  0 <= n ->
  (forall fuel st, n <= Z.of_nat (length (out st)) ->
                   fetch_loop browser sort n fuel st = Some st) /\
  exists st,
    fetch_loop browser sort n (Z.to_nat PAGE_CEILING) initial = Some st /\
    fetch_sorted browser sort n = Some (visited st, take (Z.to_nat n) (out st)) /\
    Z.of_nat (length (take (Z.to_nat n) (out st))) <= n /\
    sublist (out st) (concat ((fun u => page_batch (browser u)) <$> visited st)) /\
    (Z.of_nat (length (take (Z.to_nat n) (out st))) < n ->
     (exists u, last (visited st) = Some u /\ page_batch (browser u) = []) \/
     visited st = search_url sort <$> seqZ 1 PAGE_CEILING).
Proof.
  intros Hn. split; [intros fuel st; apply fetch_loop_quota_met|].
  destruct (fetch_loop_total browser sort n (Z.to_nat PAGE_CEILING) initial)
    as (st & Hrun & Hlen & Hsub & Hshort).
  { by apply initial_inv. }
  { unfold PAGE_CEILING, initial. simpl. lia. }
  exists st. split; [done|].
  assert (take (Z.to_nat n) (out st) = out st) as Htake by (apply take_ge; lia).
  split.
  { unfold fetch_sorted. rewrite Hrun. unfold slice_to.
    destruct (n <? 0) eqn:E; [apply Z.ltb_lt in E; lia|done]. }
  rewrite Htake. done.
Qed.

(** A site with a single page of results. *)
Definition one_page_browser (u : string) : page_view :=
  {| responses := [];
     content := if String.eqb u (search_url "pulls" 1)
                then [{| href := "/r/foo/bar"; text := "bar Pulls. 5M+ Stars. 12" |}]
                else [] |}.

Lemma fetch_sorted_quota_witness :
  0 <= 1 /\
  (forall fuel st, 1 <= Z.of_nat (length (out st)) ->
                   fetch_loop one_page_browser "pulls" 1 fuel st = Some st) /\
  exists st,
    fetch_loop one_page_browser "pulls" 1 (Z.to_nat PAGE_CEILING) initial = Some st /\
    fetch_sorted one_page_browser "pulls" 1 = Some (visited st, take (Z.to_nat 1) (out st)) /\
    Z.of_nat (length (take (Z.to_nat 1) (out st))) <= 1 /\
    sublist (out st) (concat ((fun u => page_batch (one_page_browser u)) <$> visited st)) /\
    (Z.of_nat (length (take (Z.to_nat 1) (out st))) < 1 ->
     (exists u, last (visited st) = Some u /\ page_batch (one_page_browser u) = []) \/
     visited st = search_url "pulls" <$> seqZ 1 PAGE_CEILING).
Proof.
  assert (0 <= 1) as H by lia.
  split; [exact H|]. exact (fetch_sorted_quota one_page_browser "pulls" 1 H).
Defined.

(** A site that never runs dry: every page shows one repository no other
    page shows. *)
Definition endless_browser (u : string) : page_view :=
  {| responses := [];
     content := [{| href := "/r/acme/" +:+ Text.remove_char "/" u; text := "" |}] |}.

(** C7 fails as stated: with quota 51 on a site whose every page gives a
    new Record, the loop stops at the ceiling of 50 pages and returns 50
    Records, fewer than the quota, though no page came back empty and the
    next page has more. *)
Lemma fetch_sorted_short_at_ceiling :
  exists visited rows,
    fetch_sorted endless_browser "pulls" 51 = Some (visited, rows) /\
    length rows = 50%nat /\
    length visited = 50%nat /\
    Forall (fun u => page_batch (endless_browser u) <> []) visited /\
    page_batch (endless_browser (search_url "pulls" 51)) <> [].
Proof.
  eexists _, _. split; [vm_compute; reflexivity|].
  split; [reflexivity|]. split; [reflexivity|]. split; [|by vm_compute].
  repeat (apply Forall_cons; split; [by vm_compute|]). constructor.
Qed.

(** * Further properties *)

(** ** Trimming and splitting *)

Section StripFacts.
Import Text.

Lemma lstrip_head c s a t : lstrip c s = String a t -> a <> c.
Proof.
  induction s as [|b s IH]; simpl; [done|].
  destruct (Ascii.eqb_spec b c) as [->|Hne]; [done|]. by intros [= <- _].
Qed.

Lemma rstrip_head c s a :
  (exists t, rstrip c (String a s) = String a t) \/ rstrip c (String a s) = "".
Proof. simpl. destruct (_ && _); eauto. Qed.

Lemma rstrip_not_last c s t : rstrip c s <> t +:+ String c "".
Proof.
  revert t. induction s as [|a s IH]; intros t; simpl.
  - by destruct t.
  - destruct (Ascii.eqb_spec a c) as [->|Hne]; simpl.
    + destruct (rstrip c s) as [|b u] eqn:E; simpl; [by destruct t|].
      destruct t as [|x t]; simpl; [done|].
      intros [= _ H]. by apply (IH t).
    + destruct t as [|x t]; simpl; [by intros [= ? _]|].
      intros [= _ H]. by apply (IH t).
Qed.

Lemma lstrip_id c s : has_char c s = false -> lstrip c s = s.
Proof. destruct s as [|a s]; simpl; [done|]. by intros [-> _]%orb_false_iff. Qed.

Lemma rstrip_id c s : has_char c s = false -> rstrip c s = s.
Proof.
  induction s as [|a s IH]; simpl; [done|].
  intros [-> Hs]%orb_false_iff. simpl. by rewrite IH.
Qed.

Lemma strip_id c s : has_char c s = false -> strip c s = s.
Proof. intros H. unfold strip. by rewrite lstrip_id, rstrip_id. Qed.

Lemma rstrip_app_id c s t :
  has_char c t = false -> t <> "" -> rstrip c (s +:+ t) = s +:+ t.
Proof.
  intros Ht Hne. induction s as [|a s IH]; simpl; [by apply rstrip_id|].
  rewrite IH. change (String a s +:+ t) with (String a (s +:+ t)).
  destruct (s +:+ t) eqn:E; [|by rewrite andb_false_r].
  by destruct s, t.
Qed.

Lemma split_once_app c o r :
  has_char c o = false -> split_once c (o +:+ String c r) = (o, r).
Proof.
  induction o as [|a o IH]; simpl.
  - by rewrite Ascii.eqb_refl.
  - intros [-> Ho]%orb_false_iff. by rewrite IH.
Qed.

Lemma app_snoc s c t : (s +:+ String c "") +:+ t = s +:+ String c t.
Proof.
  induction s as [|a s IH]; [done|].
  change (String a ((s +:+ String c "") +:+ t) = String a (s +:+ String c t)).
  by f_equal.
Qed.

Lemma lstrip_head_id c s :
  match s with String a _ => Ascii.eqb a c = false | EmptyString => True end ->
  lstrip c s = s.
Proof. destruct s as [|a s]; simpl; [done|]. by intros ->. Qed.

Lemma has_char_app c s t : has_char c (s +:+ t) = has_char c s || has_char c t.
Proof. induction s as [|a s IH]; simpl; [done|]. by rewrite IH, orb_assoc. Qed.

End StripFacts.

Lemma or_empty_strip_cases v :
  (text_or_falsy v = true /\ exists s, or_empty_strip v = Ok s) \/
  (text_or_falsy v = false /\ or_empty_strip v = Raise AttributeError).
Proof.
  unfold or_empty_strip, py_or, text_or_falsy.
  destruct (truthy v) eqn:Et; simpl; [|left; split; [done|by eexists]].
  destruct v; simpl; try (right; by split). left. split; [done|by eexists].
Qed.

(** [split_owner_repo] returns for arguments that are falsy or strings,
    and raises [AttributeError] for any other argument. *)
Theorem split_owner_repo_ok_iff ns nm :
  (text_or_falsy ns = true /\ text_or_falsy nm = true ->
   exists p, split_owner_repo ns nm = Ok p) /\
  (text_or_falsy ns = false \/ text_or_falsy nm = false ->
   split_owner_repo ns nm = Raise AttributeError).
Proof.
  unfold split_owner_repo.
  destruct (or_empty_strip_cases ns) as [[Hns [s ->]]|[Hns ->]];
    destruct (or_empty_strip_cases nm) as [[Hnm [t ->]]|[Hnm ->]]; simpl;
    (split; [intros [? ?]|intros [?|?]]); try congruence.
  destruct (Text.has_char "/" t); by eexists.
Qed.

Lemma split_owner_repo_ok_iff_witness :
  (text_or_falsy JNull = true /\ text_or_falsy (JStr "nginx") = true) /\
  (exists p, split_owner_repo JNull (JStr "nginx") = Ok p) /\
  (text_or_falsy (JInt 7) = false \/ text_or_falsy (JStr "nginx") = false) /\
  split_owner_repo (JInt 7) (JStr "nginx") = Raise AttributeError.
Proof.
  assert (text_or_falsy JNull = true /\ text_or_falsy (JStr "nginx") = true) as H1
    by (split; reflexivity).
  assert (text_or_falsy (JInt 7) = false \/ text_or_falsy (JStr "nginx") = false) as H2
    by (left; reflexivity).
  split; [exact H1|].
  split; [exact (proj1 (split_owner_repo_ok_iff JNull (JStr "nginx")) H1)|].
  split; [exact H2|].
  exact (proj2 (split_owner_repo_ok_iff (JInt 7) (JStr "nginx")) H2).
Defined.

(** A name that still holds a separator after trimming always splits into
    a non-empty owner and a non-empty repository name. *)
Theorem split_owner_repo_both_nonempty (ns nm o r : string) :
  Text.has_char "/" (Text.strip "/" nm) = true ->
  split_owner_repo (JStr ns) (JStr nm) = Ok (o, r) ->
  o <> "" /\ r <> "".
Proof.
  intros Hs. unfold split_owner_repo. rewrite !or_empty_strip_text. simpl.
  rewrite Hs. destruct (split_once_spec _ _ Hs) as [Heq _].
  intros [= Ho]. rewrite Ho in Heq. simpl in Heq. split; intros ->.
  - unfold Text.strip in Heq. simpl in Heq.
    destruct (Text.lstrip "/" nm) as [|a t] eqn:El; [done|].
    apply lstrip_head in El.
    destruct (rstrip_head "/" t a) as [[u H]|H]; rewrite H in Heq; [|done].
    by injection Heq as -> _.
  - by apply rstrip_not_last in Heq.
Qed.

Lemma split_owner_repo_both_nonempty_witness :
  Text.has_char "/" (Text.strip "/" "/library/nginx/") = true /\
  split_owner_repo (JStr "") (JStr "/library/nginx/") = Ok ("library", "nginx") /\
  ("library" <> "" /\ "nginx" <> "").
Proof.
  split; [reflexivity|]. split; [reflexivity|].
  exact (split_owner_repo_both_nonempty "" "/library/nginx/" "library" "nginx"
           eq_refl eq_refl).
Defined.

(** Round trip: joining a separator-free, non-empty owner and repository
    name with one separator and splitting again gives them back, whatever
    the namespace argument; and a separator-free pair passed as namespace
    and name comes back unchanged. *)
Theorem split_owner_repo_join (ns o r : string) :
  Text.has_char "/" o = false -> Text.has_char "/" r = false ->
  (o <> "" -> r <> "" ->
   split_owner_repo (JStr ns) (JStr (o +:+ String "/" r)) = Ok (o, r)) /\
  split_owner_repo (JStr o) (JStr r) = Ok (o, r).
Proof.
  intros Ho Hr. unfold split_owner_repo. rewrite !or_empty_strip_text. simpl. split.
  - intros Hno Hnr.
    assert (Text.strip "/" (o +:+ String "/" r) = o +:+ String "/" r) as ->.
    { unfold Text.strip. rewrite lstrip_head_id.
      - rewrite <- app_snoc. by apply rstrip_app_id.
      - destruct o as [|a o]; [done|]. simpl in Ho.
        apply orb_false_iff in Ho as [Ha _].
        by change (Ascii.eqb a "/" = false). }
    rewrite has_char_app. simpl. rewrite orb_true_r.
    by rewrite split_once_app.
  - rewrite !strip_id by done. by rewrite Hr.
Qed.

Lemma split_owner_repo_join_witness :
  Text.has_char "/" "library" = false /\ Text.has_char "/" "nginx" = false /\
  "library" <> "" /\ "nginx" <> "" /\
  split_owner_repo (JStr "acme") (JStr ("library" +:+ String "/" "nginx"))
    = Ok ("library", "nginx") /\
  split_owner_repo (JStr "library") (JStr "nginx") = Ok ("library", "nginx").
Proof.
  assert ("library" <> "") as H1 by discriminate.
  assert ("nginx" <> "") as H2 by discriminate.
  destruct (split_owner_repo_join "acme" "library" "nginx" eq_refl eq_refl) as [Ha Hb].
  split; [reflexivity|]. split; [reflexivity|]. split; [exact H1|]. split; [exact H2|].
  split; [exact (Ha H1 H2)|exact Hb].
Defined.

(** ** Structured extractor: what the rows are *)

Lemma rows_of_kept cands : forall rows rows',
  rows_of cands rows = Ok rows' ->
  exists kept new,
    rows' = rows ++ new /\ sublist kept cands /\
    Forall2 (fun it r => row_of_entry it = Ok (Some r)) kept new.
Proof.
  induction cands as [|it cands IH]; intros rows rows'; simpl.
  - intros [= <-]. exists [], []. by rewrite app_nil_r.
  - destruct (row_of_entry it) as [[row|]|e] eqn:E; simpl; [| |done].
    + intros (kept & new & -> & Hsub & Hall)%IH.
      exists (it :: kept), (row :: new).
      split; [by rewrite <- app_assoc|]. split; [by apply sublist_skip|].
      by apply Forall2_cons.
    + intros (kept & new & -> & Hsub & Hall)%IH.
      exists kept, new. split; [done|]. split; [by apply sublist_cons|done].
Qed.

Lemma parse_search_json_kept payload rows :
  parse_search_json payload = Ok rows ->
  exists d kept, payload = JDict d /\ sublist kept (candidates_of d) /\
                 Forall2 (fun it r => row_of_entry it = Ok (Some r)) kept rows.
Proof.
  destruct payload as [| | | | | |d]; try done. simpl. unfold candidates_of.
  destruct (find_candidates d) as [[|it cands]|] eqn:E; simpl.
  - intros [= <-]. exists d, []. split; [done|]. split; [apply sublist_nil_l|constructor].
  - intros H. apply (rows_of_kept (it :: cands) []) in H as (kept & new & -> & ? & ?).
    exists d, kept. by rewrite E.
  - intros [= <-]. exists d, []. split; [done|]. split; [apply sublist_nil_l|constructor].
Qed.

Lemma parse_search_json_row payload rows r :
  parse_search_json payload = Ok rows -> r ∈ rows ->
  exists d, row_of_entry (JDict d) = Ok (Some r).
Proof.
  intros (d0 & kept & _ & _ & Hall)%parse_search_json_kept Hr.
  induction Hall as [|it r' kept rows Hit _ IH]; [by apply elem_of_nil in Hr|].
  apply elem_of_cons in Hr as [->|Hr]; [|by apply IH].
  destruct it; try done. by eexists.
Qed.

(** The Records come from the candidate entries in their order, one for
    each entry that is kept, so there are never more Records than
    entries. *)
Theorem parse_search_json_in_order payload rows :
  parse_search_json (JDict payload) = Ok rows ->
  exists kept,
    sublist kept (candidates_of payload) /\
    Forall2 (fun it r => row_of_entry it = Ok (Some r)) kept rows /\
    (length rows <= length (candidates_of payload))%nat.
Proof.
  intros (d & kept & [= <-] & Hsub & Hall)%parse_search_json_kept.
  exists kept. split; [done|]. split; [done|].
  rewrite <- (Forall2_length _ _ _ Hall). by apply sublist_length.
Qed.

Lemma parse_search_json_in_order_witness :
  let rows := [{| name := "nginx"; owner := "library"; pulls := "1,000,000,000";
                  stars := 20000; last_updated := "";
                  url := "https://hub.docker.com/r/library/nginx" |}] in
  let payload := [("results", JList [JDict [("stars", JInt 3)]; nginx_entry])] in
  parse_search_json (JDict payload) = Ok rows /\
  exists kept,
    sublist kept (candidates_of payload) /\
    Forall2 (fun it r => row_of_entry it = Ok (Some r)) kept rows /\
    (length rows <= length (candidates_of payload))%nat.
Proof.
  intros rows payload. split; [reflexivity|].
  exact (parse_search_json_in_order payload rows eq_refl).
Defined.

(** Every Record the extractor returns has a non-empty owner and a
    non-empty name. *)
Theorem parse_search_json_rows_named payload rows r :
  parse_search_json payload = Ok rows -> r ∈ rows ->
  owner r <> "" /\ name r <> "".
Proof.
  intros H Hr. destruct (parse_search_json_row _ _ _ H Hr) as [d Hd].
  apply row_of_entry_inv in Hd as (link & _ & Ho & Hn & _).
  split; intros E; rewrite E in *; done.
Qed.

Lemma parse_search_json_rows_named_witness :
  let r := {| name := "nginx"; owner := "library"; pulls := "1,000,000,000";
              stars := 20000; last_updated := "";
              url := "https://hub.docker.com/r/library/nginx" |} in
  parse_search_json nginx_payload = Ok [r] /\ r ∈ [r] /\
  owner r <> "" /\ name r <> "".
Proof.
  intros r. assert (r ∈ [r]) as Hr by apply list_elem_of_here.
  split; [reflexivity|]. split; [exact Hr|].
  exact (parse_search_json_rows_named nginx_payload [r] r eq_refl Hr).
Defined.

(** The address of a Record is never relative.  Without a usable [href]
    it is the origin followed by [/r/owner/name]; a string [href] that
    starts with a separator is put behind the origin, any other string
    [href] is kept as it is. *)
Theorem row_of_entry_url d r :
  row_of_entry (JDict d) = Ok (Some r) ->
  String.prefix "/" (url r) = false /\
  (truthy (dict_get d "href") = false ->
   url r = ORIGIN +:+ "/r/" +:+ owner r +:+ "/" +:+ name r) /\
  (forall h, dict_get d "href" = JStr h -> h <> "" ->
             url r = if String.prefix "/" h then ORIGIN +:+ h else h).
Proof.
  intros (link & _ & _ & _ & Hl & -> & _)%row_of_entry_inv.
  unfold rebase, py_or in Hl. split; [|split].
  - destruct (if truthy _ then _ else _) as [| | | |s| |]; try done.
    injection Hl as <-. by destruct (String.prefix "/" s) eqn:E.
  - intros Hf. rewrite Hf in Hl. by injection Hl as <-.
  - intros h Hh Hne. rewrite Hh in Hl. simpl in Hl.
    destruct h; [done|]. simpl in Hl. by injection Hl as <-.
Qed.

Lemma row_of_entry_url_witness :
  let d := [("namespace", JStr "library"); ("name", JStr "nginx");
            ("href", JStr "/_/nginx")] in
  let r := {| name := "nginx"; owner := "library"; pulls := ""; stars := 0;
              last_updated := ""; url := "https://hub.docker.com/_/nginx" |} in
  row_of_entry (JDict d) = Ok (Some r) /\
  dict_get d "href" = JStr "/_/nginx" /\ "/_/nginx" <> "" /\
  String.prefix "/" (url r) = false /\
  url r = (if String.prefix "/" "/_/nginx" then ORIGIN +:+ "/_/nginx" else "/_/nginx").
Proof.
  intros d r. assert ("/_/nginx" <> "") as Hne by discriminate.
  destruct (row_of_entry_url d r eq_refl) as (H1 & _ & H3).
  split; [reflexivity|]. split; [reflexivity|]. split; [exact Hne|].
  split; [exact H1|exact (H3 "/_/nginx" eq_refl Hne)].
Defined.

(** When neither the top level nor any nested object gives a non-empty
    candidate list, the extractor returns no Records and does not raise;
    in particular an empty list under an earlier candidate key hides the
    entries under a later one. *)
Theorem parse_search_json_nothing_usable payload :
  cand_truthy (first_list_under CANDIDATE_KEYS payload) = false ->
  Forall (fun kv => cand_truthy (nested_list kv.2) = false) payload ->
  parse_search_json (JDict payload) = Ok [].
Proof.
  intros Htop Hall. unfold parse_search_json, find_candidates. rewrite Htop.
  destruct (scan_values_skip (map snd payload) [] _ Htop) as (cand & Hc & Hs).
  { by apply Forall_map. }
  rewrite app_nil_r in Hs. rewrite Hs. simpl. by destruct cand as [[|]|].
Qed.

Lemma parse_search_json_nothing_usable_witness :
  let payload := [("summaries", JList []); ("results", JList [nginx_entry])] in
  cand_truthy (first_list_under CANDIDATE_KEYS payload) = false /\
  Forall (fun kv => cand_truthy (nested_list kv.2) = false) payload /\
  parse_search_json (JDict payload) = Ok [].
Proof.
  intros payload.
  assert (Forall (fun kv => cand_truthy (nested_list kv.2) = false) payload) as H
    by (repeat constructor).
  split; [reflexivity|]. split; [exact H|].
  exact (parse_search_json_nothing_usable payload eq_refl H).
Defined.

(** The fields an entry is read through. *)
Definition ENTRY_KEYS : list string :=
  ["namespace"; "publisher"; "orgname"; "name"; "slug"; "repo_name"; "display_name";
   "pulls"; "pull_count_str"; "pull_count"; "star_count"; "stars"; "last_updated";
   "updated_at"; "href"].

Lemma dict_get_insert_other d1 d2 k v k' :
  k' <> k -> dict_get (d1 ++ (k, v) :: d2) k' = dict_get (d1 ++ d2) k'.
Proof.
  intros Hne. induction d1 as [|[k0 v0] d1 IH]; simpl.
  - destruct (String.eqb_spec k k'); congruence.
  - by rewrite IH.
Qed.

(** A field under any other key, wherever it sits in the entry, changes
    nothing. *)
Theorem row_of_entry_ignores_other_keys d1 d2 k v :
  k ∉ ENTRY_KEYS ->
  row_of_entry (JDict (d1 ++ (k, v) :: d2)) = row_of_entry (JDict (d1 ++ d2)).
Proof.
  intros Hk.
  assert (forall k', k' ∈ ENTRY_KEYS -> k' <> k) as Hne by (by intros k' ? ->).
  unfold row_of_entry.
  rewrite !(dict_get_insert_other d1 d2 k v) by (apply Hne; repeat constructor).
  done.
Qed.

Lemma row_of_entry_ignores_other_keys_witness :
  ("description" ∉ ENTRY_KEYS) /\
  row_of_entry (JDict ([("namespace", JStr "library")]
                       ++ ("description", JInt 5) :: [("name", JStr "nginx")]))
  = row_of_entry (JDict ([("namespace", JStr "library")] ++ [("name", JStr "nginx")])).
Proof.
  assert ("description" ∉ ENTRY_KEYS) as H.
  { unfold ENTRY_KEYS. rewrite !not_elem_of_cons. repeat split; try discriminate.
    apply not_elem_of_nil. }
  split; [exact H|].
  exact (row_of_entry_ignores_other_keys [("namespace", JStr "library")]
           [("name", JStr "nginx")] "description" (JInt 5) H).
Defined.

(** ** Integers and their text *)

Section IntText.
Import Text.

(** The value of a digit sequence read left to right onto [acc]. *)
Fixpoint uint_val (d : Decimal.uint) (acc : Z) : Z :=
  match d with
  | Decimal.Nil => acc
  | Decimal.D0 d => uint_val d (10 * acc)
  | Decimal.D1 d => uint_val d (10 * acc + 1)
  | Decimal.D2 d => uint_val d (10 * acc + 2)
  | Decimal.D3 d => uint_val d (10 * acc + 3)
  | Decimal.D4 d => uint_val d (10 * acc + 4)
  | Decimal.D5 d => uint_val d (10 * acc + 5)
  | Decimal.D6 d => uint_val d (10 * acc + 6)
  | Decimal.D7 d => uint_val d (10 * acc + 7)
  | Decimal.D8 d => uint_val d (10 * acc + 8)
  | Decimal.D9 d => uint_val d (10 * acc + 9)
  end.

Lemma int_digits_uint d : forall acc,
  int_digits (NilEmpty.string_of_uint d) acc false = Some (uint_val d acc).
Proof.
  induction d; intros acc; simpl; [done|..]; rewrite IHd; do 2 f_equal; lia.
Qed.

Lemma of_uint_acc_val d : forall acc,
  Z.pos (Pos.of_uint_acc d acc) = uint_val d (Z.pos acc).
Proof.
  induction d; intros acc; simpl; [done|..]; rewrite IHd; f_equal; lia.
Qed.

Lemma of_uint_val d : Z.of_N (Pos.of_uint d) = uint_val d 0.
Proof. induction d; simpl; [done|done|..]; apply of_uint_acc_val. Qed.

Lemma to_uint_val p : uint_val (Pos.to_uint p) 0 = Z.pos p.
Proof. by rewrite <- of_uint_val, DecimalPos.Unsigned.of_to. Qed.

Lemma py_int_uint d :
  d <> Decimal.Nil ->
  py_int (NilZero.string_of_uint d) = Some (uint_val d 0) /\
  py_int (String "-" (NilZero.string_of_uint d)) = Some (- uint_val d 0).
Proof.
  intros Hd. destruct d; [done|..]; unfold py_int; simpl;
    rewrite int_digits_uint; done.
Qed.

(** [int(str(z))] is [z]. *)
Lemma py_int_str_int z : py_int (str_int z) = Some z.
Proof.
  destruct z as [|p|p]; [done|..]; unfold str_int; simpl;
    destruct (py_int_uint (Pos.to_uint p) (DecimalPos.Unsigned.to_uint_nonnil p))
      as [H1 H2]; rewrite ?H1, ?H2, to_uint_val; done.
Qed.














End IntText.



(** ** Running a pattern *)

Module RxRun.
Import Rx.

Lemma app_assoc s t u : (s +:+ t) +:+ u = s +:+ t +:+ u.
Proof.
  induction s as [|a s IH]; [done|].
  change (String a ((s +:+ t) +:+ u) = String a (s +:+ t +:+ u)). by f_equal.
Qed.

Lemma app_nil_r s : s +:+ "" = s.
Proof.
  induction s as [|a s IH]; [done|].
  change (String a (s +:+ "") = String a s). by f_equal.
Qed.

Lemma app_cons a s t : String a s +:+ t = String a (s +:+ t).
Proof. done. Qed.

(** Pushing a whole text onto the group being captured. *)
Definition push_all (t : string) (cur : option string) : option string :=
  match cur with
  | Some u => Some (u +:+ t)
  | None => None
  end.

Lemma push_all_nil cur : push_all "" cur = cur.
Proof. destruct cur; simpl; [|done]. by rewrite app_nil_r. Qed.

Lemma push_all_cons c t cur : push_all (String c t) cur = push_all t (push c cur).
Proof. destruct cur; simpl; [|done]. by rewrite app_assoc. Qed.

Lemma run_bos r s cur caps : run (Bos :: r) s 0 cur caps = run r s 0 cur caps.
Proof. done. Qed.

Lemma run_gopen r s pos cur caps :
  run (GOpen :: r) s pos cur caps = run r s pos (Some "") caps.
Proof. done. Qed.

Lemma run_gclose r s pos cur caps :
  run (GClose :: r) s pos cur caps = run r s pos None (caps ++ [default "" cur]).
Proof. done. Qed.

Lemma run_chr p r c s pos cur caps :
  p c = true ->
  run (Chr p :: r) (String c s) pos cur caps = run r s (S pos) (push c cur) caps.
Proof. simpl. by intros ->. Qed.

(** What a successful run of each item consumed. *)
Lemma run_chr_inv p r s pos cur caps res :
  run (Chr p :: r) s pos cur caps = Some res ->
  exists c s', s = String c s' /\ p c = true /\
               run r s' (S pos) (push c cur) caps = Some res.
Proof.
  simpl. destruct s as [|c s']; [done|]. destruct (p c) eqn:E; [|done]. eauto.
Qed.

Lemma run_many_inv p r s : forall pos cur caps res,
  run (Many p :: r) s pos cur caps = Some res ->
  exists taken s', s = taken +:+ s' /\ Text.all_chars p taken = true /\
    run r s' (pos + String.length taken) (push_all taken cur) caps = Some res.
Proof.
  induction s as [|c s IH]; intros pos cur caps res; rewrite RxFacts.run_many.
  - intros H. exists "", "". rewrite Nat.add_0_r, push_all_nil. done.
  - assert (run r (String c s) pos cur caps = Some res ->
            exists taken s', String c s = taken +:+ s' /\
              Text.all_chars p taken = true /\
              run r s' (pos + String.length taken) (push_all taken cur) caps = Some res)
      as Hstop.
    { intros H. exists "", (String c s). rewrite Nat.add_0_r, push_all_nil. done. }
    destruct (p c) eqn:E; [|done].
    intros [H|H]%RxFacts.or_else_Some; [|by apply Hstop].
    apply IH in H as (taken & s' & -> & Hall & Hrun).
    exists (String c taken), s'. split; [done|]. simpl. rewrite E, Hall.
    split; [done|]. rewrite push_all_cons.
    by replace (pos + S (String.length taken))%nat
      with (S pos + String.length taken)%nat by lia.
Qed.

Lemma run_maybe_inv p r s pos cur caps res :
  run (Maybe p :: r) s pos cur caps = Some res ->
  (exists c s', s = String c s' /\ p c = true /\
                run r s' (S pos) (push c cur) caps = Some res) \/
  run r s pos cur caps = Some res.
Proof.
  simpl. destruct s as [|c s']; [by right|].
  destruct (p c) eqn:E; [|by right].
  intros [H|H]%RxFacts.or_else_Some; [left; eauto|by right].
Qed.

(** Greedy repetition takes all it can when the rest then matches. *)
Lemma run_many_greedy p r taken : forall s' pos cur caps res,
  Text.all_chars p taken = true ->
  match s' with String c _ => p c = false | EmptyString => True end ->
  run r s' (pos + String.length taken) (push_all taken cur) caps = Some res ->
  run (Many p :: r) (taken +:+ s') pos cur caps = Some res.
Proof.
  induction taken as [|c taken IH]; intros s' pos cur caps res Hall Hs' Hrun;
    rewrite RxFacts.run_many.
  - rewrite Nat.add_0_r, push_all_nil in Hrun. change ("" +:+ s') with s'.
    destruct s' as [|c s']; [done|]. by rewrite Hs'.
  - rewrite app_cons. simpl in Hall. apply andb_true_iff in Hall as [Hc Hall].
    rewrite Hc. rewrite (IH s' (S pos) (push c cur) caps res); [done|done|done|].
    rewrite <- push_all_cons.
    by replace (S pos + String.length taken)%nat
      with (pos + String.length (String c taken))%nat by (simpl; lia).
Qed.

End RxRun.

(** ** Markup extractor: the repository link *)

Definition newline : ascii := ascii_of_N 10.

Lemma repo_link_items :
  RX_REPO_LINK =
  [Rx.Bos; Rx.Chr (Rx.only "/"); Rx.Chr (Rx.only "r"); Rx.Chr (Rx.only "/");
   Rx.GOpen; Rx.Chr (Rx.except "/"); Rx.Many (Rx.except "/"); Rx.GClose;
   Rx.Chr (Rx.only "/");
   Rx.GOpen; Rx.Chr (Rx.except "/"); Rx.Many (Rx.except "/"); Rx.GClose;
   Rx.Maybe (Rx.only "/"); Rx.Eos].
Proof. reflexivity. Qed.

Lemma only_eq c x : Rx.only c x = true -> x = c.
Proof. unfold Rx.only. by intros ?%Ascii.eqb_eq. Qed.

Lemma at_end_cases s : Rx.at_end s = true -> s = "" \/ s = String newline "".
Proof.
  destruct s as [|c [|]]; simpl; [by left| |done].
  intros H%N.eqb_eq. right. unfold Text.code in H.
  by rewrite <- (ascii_N_embedding c), H.
Qed.

Lemma repo_link_tail s pos cur caps m :
  Rx.run [Rx.Maybe (Rx.only "/"); Rx.Eos] s pos cur caps = Some m ->
  m = caps /\ (s = "" \/ s = String newline "" \/ s = "/"
               \/ s = String "/" (String newline "")).
Proof.
  intros [(c & s' & -> & ->%only_eq & H)|H]%RxRun.run_maybe_inv; simpl in H.
  - destruct (Rx.at_end s') eqn:E; [|done]. injection H as <-.
    split; [done|]. apply at_end_cases in E as [->| ->]; auto.
  - destruct (Rx.at_end s) eqn:E; [|done]. injection H as <-.
    split; [done|]. apply at_end_cases in E as [->| ->]; auto.
Qed.

(** What an address that matches the repository-link pattern looks like. *)
Lemma repo_link_inv h m :
  Rx.rmatch RX_REPO_LINK h = Some m ->
  exists o n tail,
    h = "/r/" +:+ o +:+ "/" +:+ n +:+ tail /\ m = [o; n] /\
    o <> "" /\ n <> "" /\
    Text.all_chars (Rx.except "/") o = true /\
    Text.all_chars (Rx.except "/") n = true /\
    (tail = "" \/ tail = String newline "" \/ tail = "/"
     \/ tail = String "/" (String newline "")).
Proof.
  unfold Rx.rmatch. rewrite repo_link_items, RxRun.run_bos.
  intros (c1 & s1 & -> & ->%only_eq & H)%RxRun.run_chr_inv.
  apply RxRun.run_chr_inv in H as (c2 & s2 & -> & ->%only_eq & H).
  apply RxRun.run_chr_inv in H as (c3 & s3 & -> & ->%only_eq & H).
  rewrite RxRun.run_gopen in H.
  apply RxRun.run_chr_inv in H as (a & s4 & -> & Ha & H).
  apply RxRun.run_many_inv in H as (o' & s5 & -> & Ho' & H).
  rewrite RxRun.run_gclose in H.
  apply RxRun.run_chr_inv in H as (c4 & s6 & -> & ->%only_eq & H).
  rewrite RxRun.run_gopen in H.
  apply RxRun.run_chr_inv in H as (b & s7 & -> & Hb & H).
  apply RxRun.run_many_inv in H as (n' & s8 & -> & Hn' & H).
  rewrite RxRun.run_gclose in H.
  apply repo_link_tail in H as [-> Htail].
  exists (String a o'), (String b n'), s8.
  split; [|split; [done|]].
  - change (String "/" (String "r" (String "/" (String a (o' +:+ String "/" (String b (n' +:+ s8))))))
            = String "/" (String "r" (String "/" (String a (o' +:+ String "/" (String b n' +:+ s8)))))).
    done.
  - split; [done|]. split; [done|]. simpl. by rewrite Ha, Ho', Hb, Hn'.
Qed.

Lemma all_except_has_char c s :
  Text.all_chars (Rx.except c) s = true <-> Text.has_char c s = false.
Proof.
  induction s as [|a s IH]; simpl; [done|]. unfold Rx.except at 1.
  rewrite andb_true_iff, orb_false_iff, negb_true_iff. by rewrite IH.
Qed.

(** Every Record scraped from markup comes from an anchor whose address is
    [/r/owner/name], followed at most by one separator and a final
    newline, with owner and name non-empty and free of separators; its
    address is the origin followed by the anchor's address. *)
Theorem parse_from_dom_link_shape anchors r :
  r ∈ parse_from_dom anchors ->
  exists a tail,
    a ∈ anchors /\
    href a = "/r/" +:+ owner r +:+ "/" +:+ name r +:+ tail /\
    (tail = "" \/ tail = String newline "" \/ tail = "/"
     \/ tail = String "/" (String newline "")) /\
    owner r <> "" /\ name r <> "" /\
    Text.has_char "/" (owner r) = false /\ Text.has_char "/" (name r) = false /\
    url r = ORIGIN +:+ href a.
Proof.
  intros (a & Ha & Hr)%elem_of_parse_from_dom.
  apply row_of_anchor_inv in Hr as (m & Hm & Hn & Ho & _ & Hu).
  apply repo_link_inv in Hm as (o & n & tail & Hh & -> & Hno & Hnn & Hso & Hsn & Ht).
  change (Rx.group2 [o; n]) with n in Hn. change (Rx.group1 [o; n]) with o in Ho.
  rewrite Hn, Ho. exists a, tail.
  by rewrite <- !all_except_has_char.
Qed.

Lemma parse_from_dom_link_shape_witness :
  let a := {| href := "/r/foo/bar/"; text := "" |} in
  let r := {| name := "bar"; owner := "foo"; pulls := ""; stars := 0;
              last_updated := ""; url := "https://hub.docker.com/r/foo/bar/" |} in
  r ∈ parse_from_dom [a; {| href := "/u/foo"; text := "" |}] /\
  exists a' tail,
    a' ∈ [a; {| href := "/u/foo"; text := "" |}] /\
    href a' = "/r/" +:+ owner r +:+ "/" +:+ name r +:+ tail /\
    (tail = "" \/ tail = String newline "" \/ tail = "/"
     \/ tail = String "/" (String newline "")) /\
    owner r <> "" /\ name r <> "" /\
    Text.has_char "/" (owner r) = false /\ Text.has_char "/" (name r) = false /\
    url r = ORIGIN +:+ href a'.
Proof.
  intros a r.
  assert (r ∈ parse_from_dom [a; {| href := "/u/foo"; text := "" |}]) as H
    by apply list_elem_of_here.
  split; [exact H|]. exact (parse_from_dom_link_shape _ r H).
Defined.

Lemma repo_link_match o n trail :
  o <> "" -> n <> "" ->
  Text.has_char "/" o = false -> Text.has_char "/" n = false ->
  trail = "" \/ trail = "/" ->
  Rx.rmatch RX_REPO_LINK ("/r/" +:+ o +:+ "/" +:+ n +:+ trail) = Some [o; n].
Proof.
  intros Hno Hnn Ho Hn Ht.
  destruct o as [|a o']; [done|]. destruct n as [|b n']; [done|].
  apply all_except_has_char in Ho, Hn. simpl in Ho, Hn.
  apply andb_true_iff in Ho as [Ha Ho']. apply andb_true_iff in Hn as [Hb Hn'].
  unfold Rx.rmatch. rewrite repo_link_items, RxRun.run_bos.
  change ("/r/" +:+ String a o' +:+ "/" +:+ String b n' +:+ trail)
    with (String "/" (String "r" (String "/"
            (String a (o' +:+ String "/" (String b (n' +:+ trail))))))).
  rewrite !RxRun.run_chr by done. rewrite RxRun.run_gopen, RxRun.run_chr by done.
  apply RxRun.run_many_greedy; [done|done|].
  rewrite RxRun.run_gclose, RxRun.run_chr by done.
  rewrite RxRun.run_gopen, RxRun.run_chr by done.
  apply RxRun.run_many_greedy; [done|by destruct Ht as [->| ->]|].
  rewrite RxRun.run_gclose. by destruct Ht as [->| ->].
Qed.

(** Round trip of a repository link: an anchor whose address is
    [/r/owner/name], with or without a closing separator, for a non-empty
    owner and name free of separators, gives a Record with exactly that
    owner and name, whatever its text. *)
Theorem row_of_anchor_repo_link o n trail txt :
  o <> "" -> n <> "" ->
  Text.has_char "/" o = false -> Text.has_char "/" n = false ->
  trail = "" \/ trail = "/" ->
  exists r,
    parse_from_dom [{| href := "/r/" +:+ o +:+ "/" +:+ n +:+ trail; text := txt |}] = [r] /\
    owner r = o /\ name r = n /\
    url r = ORIGIN +:+ "/r/" +:+ o +:+ "/" +:+ n +:+ trail.
Proof.
  intros Hno Hnn Ho Hn Ht. unfold parse_from_dom. cbn [omap list_omap].
  unfold row_of_anchor. cbn [href].
  rewrite (repo_link_match o n trail) by done.
  eexists. split; [reflexivity|]. done.
Qed.

Lemma row_of_anchor_repo_link_witness :
  "library" <> "" /\ "nginx" <> "" /\
  Text.has_char "/" "library" = false /\ Text.has_char "/" "nginx" = false /\
  ("/" = "" \/ "/" = "/") /\
  exists r,
    parse_from_dom [{| href := "/r/" +:+ "library" +:+ "/" +:+ "nginx" +:+ "/";
                       text := "nginx 1B+ Pulls" |}] = [r] /\
    owner r = "library" /\ name r = "nginx" /\
    url r = ORIGIN +:+ "/r/" +:+ "library" +:+ "/" +:+ "nginx" +:+ "/".
Proof.
  assert ("library" <> "") as H1 by discriminate.
  assert ("nginx" <> "") as H2 by discriminate.
  assert ("/" = "" \/ "/" = "/") as H3 by (by right).
  split; [exact H1|]. split; [exact H2|]. split; [reflexivity|]. split; [reflexivity|].
  split; [exact H3|].
  exact (row_of_anchor_repo_link "library" "nginx" "/" "nginx 1B+ Pulls"
           H1 H2 eq_refl eq_refl H3).
Defined.

(** ** Markup extractor: the text fields *)







(** ** De-duplication: what the step computes *)

#[local] Set Warnings "-clear-no-such-hyp".

(** Written from the description of the step: the Records of a batch whose
    key is neither in the seen-set nor carried by an earlier Record of the
    batch, in batch order. *)
Fixpoint first_seen (batch : list RepoRow) (seen : gset key) : list RepoRow :=
  match batch with
  | [] => []
  | r :: batch' =>
      if decide (key_of r ∈ seen) then first_seen batch' seen
      else r :: first_seen batch' ({[key_of r]} ∪ seen)
  end.

(** The step appends the first-seen Records of the batch, cut where the
    accumulation reaches the quota; as the quota is tested after an append,
    at least one first-seen Record is appended whatever the quota. *)
Theorem accumulate_first_seen n batch : forall seen out,
  (accumulate n batch seen out).2 =
  out ++ take (Z.to_nat (Z.max 1 (n - Z.of_nat (length out)))) (first_seen batch seen).
Proof.
  induction batch as [|r batch IH]; intros seen out; simpl.
  - by rewrite take_nil, app_nil_r.
  - destruct (decide (key_of r ∈ seen)) as [Hin|Hnin]; [apply IH|].
    rewrite length_app. simpl length.
    destruct (Z.of_nat (length out + 1) >=? n) eqn:E.
    + apply Z.geb_le in E. simpl.
      replace (Z.to_nat (Z.max 1 (n - Z.of_nat (length out)))) with 1%nat by lia.
      done.
    + rewrite Z.geb_leb in E. apply Z.leb_gt in E.
      rewrite IH, length_app. simpl length. rewrite <- app_assoc. simpl. f_equal.
      replace (Z.to_nat (Z.max 1 (n - Z.of_nat (length out))))
        with (S (Z.to_nat (Z.max 1 (n - Z.of_nat (length out + 1))))) by lia.
      done.
Qed.

(** The step only appends: the prior accumulation stays in front, what is
    appended is a subsequence of the batch with pairwise different keys,
    none of them seen before, and the seen-set grows by exactly those
    keys. *)
Theorem accumulate_appends n batch : forall seen out,
  exists extra,
    accumulate n batch seen out
      = (list_to_set (key_of <$> extra) ∪ seen, out ++ extra) /\
    sublist extra batch /\
    NoDup (key_of <$> extra) /\
    (forall r, r ∈ extra -> key_of r ∉ seen).
Proof.
  induction batch as [|r batch IH]; intros seen out; simpl.
  - exists []. rewrite app_nil_r. simpl. split; [f_equal; set_solver|].
    split; [done|]. split; [constructor|]. by intros r ?%elem_of_nil.
  - destruct (decide (key_of r ∈ seen)) as [Hin|Hnin].
    + destruct (IH seen out) as (extra & -> & Hsub & Hnd & Hfresh).
      exists extra. split; [done|]. split; [by apply sublist_cons|done].
    + destruct (Z.of_nat (length (out ++ [r])) >=? n).
      * exists [r]. split; [simpl; f_equal; set_solver|].
        split; [apply sublist_skip, sublist_nil_l|].
        split; [apply NoDup_singleton|].
        by intros r' ->%list_elem_of_singleton.
      * destruct (IH ({[key_of r]} ∪ seen) (out ++ [r]))
          as (extra & -> & Hsub & Hnd & Hfresh).
        exists (r :: extra). split; [|split; [by apply sublist_skip|split]].
        -- rewrite <- app_assoc. simpl. f_equal. set_solver.
        -- simpl. apply NoDup_cons. split; [|done].
           intros (r' & Hk & Hr')%list_elem_of_fmap.
           apply (Hfresh r' Hr'). rewrite <- Hk. set_solver.
        -- intros r' [->|Hr']%elem_of_cons; [done|].
           intros Hin. apply (Hfresh r' Hr'). set_solver.
Qed.

(** ** The fetch loop: pages and rows *)

Section FetchLoopRule.

Variable browser : string -> page_view.
Variable sort : string.
Variable n : Z.

(** Invariant rule for the [while] loop: [I] holds each time the test is
    evaluated, [Q] when the loop is left. *)
Lemma fetch_loop_rule (I Q : loop_state -> Prop) :
  (forall st, I st -> loop_test n st = false -> Q st) ->
  (forall st, I st -> loop_test n st = true ->
     if (loop_body browser sort n st).2 then Q (loop_body browser sort n st).1
     else I (loop_body browser sort n st).1) ->
  forall fuel st st', I st -> fetch_loop browser sort n fuel st = Some st' -> Q st'.
Proof.
  intros Hexit Hbody. induction fuel as [|fuel IH]; intros st st' HI; simpl.
  - destruct (loop_test n st) eqn:Et; [done|]. intros [= <-]. by apply Hexit.
  - destruct (loop_test n st) eqn:Et; [|intros [= <-]; by apply Hexit].
    specialize (Hbody st HI Et).
    destruct (loop_body browser sort n st) as [st1 stop]. simpl in Hbody.
    destruct stop; [by intros [= <-]|]. by apply IH.
Qed.

Lemma loop_body_fields st :
  let batch := page_batch (browser (search_url sort (page_no st))) in
  let st' := (loop_body browser sort n st).1 in
  (loop_body browser sort n st).2 = (if batch is [] then true else false) /\
  page_no st' = (if batch is [] then page_no st else page_no st + 1) /\
  visited st' = visited st ++ [search_url sort (page_no st)] /\
  (seen st', out st') = accumulate n batch (seen st) (out st).
Proof.
  unfold loop_body. simpl.
  destruct (accumulate n _ (seen st) (out st)) as [s o].
  by destruct (page_batch _).
Qed.

(** The loop needs no more iterations than pages are left below the
    ceiling. *)
Lemma fetch_loop_terminates fuel : forall st,
  PAGE_CEILING + 1 - page_no st <= Z.of_nat fuel ->
  exists st', fetch_loop browser sort n fuel st = Some st'.
Proof.
  induction fuel as [|fuel IH]; intros st Hfuel; simpl.
  - destruct (loop_test n st) eqn:Et; [|by eexists].
    apply loop_test_true in Et. lia.
  - destruct (loop_test n st) eqn:Et; [|by eexists].
    destruct (loop_body_fields st) as (Hs & Hp & _).
    destruct (loop_body browser sort n st) as [st1 stop]. simpl in Hs, Hp.
    destruct stop; [by eexists|]. apply IH. rewrite Hp.
    destruct (page_batch _); [done|lia].
Qed.

End FetchLoopRule.

(** [fetch_sorted] always returns.  The pages it requests are pages 1, 2,
    ... up to some page of at most 50, in that order and each once, and
    every page before the last one requested gave a non-empty batch: no
    page is requested after an empty one. *)
Theorem fetch_sorted_pages browser sort n :
  exists j rows,
    fetch_sorted browser sort n = Some (search_url sort <$> seqZ 1 j, rows) /\
    0 <= j <= PAGE_CEILING /\
    forall i, 1 <= i < j -> page_batch (browser (search_url sort i)) <> [].
Proof.
  destruct (fetch_loop_terminates browser sort n (Z.to_nat PAGE_CEILING) initial)
    as [st Hst]; [unfold PAGE_CEILING, initial; simpl; lia|].
  pose (I := fun st : loop_state =>
    1 <= page_no st <= PAGE_CEILING + 1 /\
    visited st = search_url sort <$> seqZ 1 (page_no st - 1) /\
    forall i, 1 <= i < page_no st -> page_batch (browser (search_url sort i)) <> []).
  pose (Q := fun st : loop_state =>
    exists j, visited st = search_url sort <$> seqZ 1 j /\ 0 <= j <= PAGE_CEILING /\
              forall i, 1 <= i < j -> page_batch (browser (search_url sort i)) <> []).
  assert (Q st) as (j & Hv & Hj & Hne).
  { apply (fetch_loop_rule browser sort n I Q) with (Z.to_nat PAGE_CEILING) initial;
      [| |by (split; [unfold PAGE_CEILING; simpl; lia|split; [done|simpl; lia]])|done].
    - intros st0 (Hp & Hvis & Hall) Ht. exists (page_no st0 - 1).
      split; [done|]. split; [lia|]. intros i Hi. apply Hall. lia.
    - intros st0 (Hp & Hvis & Hall) [_ Hc]%loop_test_true.
      destruct (loop_body_fields browser sort n st0) as (Hs & Hpg & Hvis' & _).
      simpl in Hs, Hpg, Hvis'. rewrite Hs.
      assert (visited (loop_body browser sort n st0).1
              = search_url sort <$> seqZ 1 (page_no st0)) as Hv'.
      { rewrite Hvis', Hvis.
        replace (page_no st0) with ((page_no st0 - 1) + 1) at 3 by lia.
        rewrite seqZ_app by lia. rewrite fmap_app. simpl.
        by replace (1 + (page_no st0 - 1)) with (page_no st0) by lia. }
      destruct (page_batch (browser (search_url sort (page_no st0)))) eqn:Eb.
      + exists (page_no st0). split; [done|]. split; [lia|].
        intros i Hi. apply Hall. lia.
      + split; [rewrite Hpg; lia|]. rewrite Hpg. split.
        * by replace (page_no st0 + 1 - 1) with (page_no st0) by lia.
        * intros i Hi. destruct (decide (i = page_no st0)) as [->|Hne].
          -- by rewrite Eb.
          -- apply Hall. lia. }
  exists j, (slice_to (out st) n). split; [|done].
  unfold fetch_sorted. by rewrite Hst, Hv.
Qed.

(** With a quota of 0 or less no page is requested and the result is
    empty. *)
Theorem fetch_sorted_nonpositive_quota browser sort n :
  n <= 0 -> fetch_sorted browser sort n = Some ([], []).
Proof.
  intros Hn. unfold fetch_sorted.
  rewrite (fetch_loop_quota_met browser sort n _ initial) by (simpl; lia).
  simpl. unfold slice_to. destruct (n <? 0); by rewrite take_nil.
Qed.

Lemma fetch_sorted_nonpositive_quota_witness :
  -3 <= 0 /\ fetch_sorted endless_browser "stars" (-3) = Some ([], []).
Proof.
  assert (-3 <= 0) as H by lia.
  split; [exact H|]. exact (fetch_sorted_nonpositive_quota endless_browser "stars" (-3) H).
Defined.

Lemma json_row_named payload rows r :
  parse_search_json payload = Ok rows -> r ∈ rows -> owner r <> "" /\ name r <> "".
Proof.
  intros H Hr. destruct (parse_search_json_row _ _ _ H Hr) as [d Hd].
  apply row_of_entry_inv in Hd as (link & _ & Ho & Hn & _).
  split; intros E; rewrite E in *; done.
Qed.

Lemma dom_row_named anchors r :
  r ∈ parse_from_dom anchors -> owner r <> "" /\ name r <> "".
Proof.
  intros (a & _ & Hr)%elem_of_parse_from_dom.
  apply row_of_anchor_inv in Hr as (m & Hm & Hn & Ho & _).
  apply repo_link_inv in Hm as (o & nm & tail & _ & -> & Hno & Hnn & _).
  by rewrite Hn, Ho.
Qed.

Lemma maybe_parse_named resp r :
  r ∈ maybe_parse resp -> owner r <> "" /\ name r <> "".
Proof.
  unfold maybe_parse. repeat case_match; try by intros ?%elem_of_nil.
  by eapply json_row_named.
Qed.

(** Whichever extractor filled it, every Record of a page batch has a
    non-empty owner and a non-empty name. *)
Lemma page_batch_named pv r :
  r ∈ page_batch pv -> owner r <> "" /\ name r <> "".
Proof.
  unfold page_batch.
  assert (r ∈ concat (map maybe_parse (responses pv)) -> owner r <> "" /\ name r <> "")
    as Hjson.
  { intros (rows & Hrows & Hr)%list_elem_of_In%in_concat.
    apply in_map_iff in Hrows as (resp & <- & _).
    apply list_elem_of_In in Hr. by eapply maybe_parse_named. }
  destruct (concat _) eqn:E; [apply dom_row_named|exact Hjson].
Qed.

(** The rows [fetch_sorted] returns never name the same repository twice;
    each was in the batch of a requested page and has a non-empty owner
    and name; and there are no more of them than the quota asks for, when
    that is positive. *)
Theorem fetch_sorted_rows browser sort n pages rows :
  fetch_sorted browser sort n = Some (pages, rows) ->
  NoDup (key_of <$> rows) /\
  (forall r, r ∈ rows ->
     (exists u, u ∈ pages /\ r ∈ page_batch (browser u)) /\
     owner r <> "" /\ name r <> "") /\
  (0 <= n -> Z.of_nat (length rows) <= n).
Proof.
  unfold fetch_sorted.
  destruct (fetch_loop browser sort n (Z.to_nat PAGE_CEILING) initial) as [st|] eqn:Hst;
    [|done].
  intros [= <- <-].
  pose (I := fun st : loop_state =>
    consistent (seen st) (out st) /\
    forall r, r ∈ out st -> exists u, u ∈ visited st /\ r ∈ page_batch (browser u)).
  assert (I st) as [[Hnd _] Hfrom].
  { apply (fetch_loop_rule browser sort n I I) with (Z.to_nat PAGE_CEILING) initial;
      [done| |split; [split; [constructor|by intros r ?%elem_of_nil]
                     |by intros r ?%elem_of_nil]|done].
    intros st0 [Hc Hf] _.
    destruct (loop_body_fields browser sort n st0) as (Hs & _ & Hvis & Hacc).
    simpl in Hs, Hvis, Hacc.
    assert (I (loop_body browser sort n st0).1) as HI.
    { pose proof (accumulate_consistent n
        (page_batch (browser (search_url sort (page_no st0)))) _ _ Hc) as Hc'.
      destruct (accumulate_extends n
        (page_batch (browser (search_url sort (page_no st0)))) (seen st0) (out st0))
        as (extra & Hout & Hsub).
      rewrite <- Hacc in Hc', Hout. simpl in Hc', Hout.
      split; [done|]. intros r. rewrite Hout, Hvis.
      intros [Hr|Hr]%elem_of_app.
      - destruct (Hf r Hr) as (u & Hu & Hru). exists u.
        split; [apply elem_of_app; by left|done].
      - exists (search_url sort (page_no st0)).
        split; [apply elem_of_app; right; apply list_elem_of_here|].
        by eapply elem_of_sublist. }
    by destruct ((loop_body browser sort n st0).2). }
  assert (sublist (slice_to (out st) n) (out st)) as Hsl.
  { unfold slice_to. destruct (n <? 0); apply sublist_take. }
  split; [by eapply sublist_NoDup; [|apply fmap_sublist]|]. split.
  - intros r Hr. assert (r ∈ out st) as Hr' by (by eapply elem_of_sublist).
    destruct (Hfrom r Hr') as (u & Hu & Hru). split; [by exists u|].
    by eapply page_batch_named.
  - intros Hn. unfold slice_to. destruct (n <? 0) eqn:E; [apply Z.ltb_lt in E; lia|].
    rewrite length_take. lia.
Qed.

Lemma fetch_sorted_rows_witness :
  let r := {| name := "bar"; owner := "foo"; pulls := "5M+"; stars := 12;
              last_updated := ""; url := "https://hub.docker.com/r/foo/bar" |} in
  fetch_sorted one_page_browser "pulls" 5
    = Some ([search_url "pulls" 1; search_url "pulls" 2], [r]) /\
  NoDup (key_of <$> [r]) /\
  (forall r', r' ∈ [r] ->
     (exists u, u ∈ [search_url "pulls" 1; search_url "pulls" 2]
                /\ r' ∈ page_batch (one_page_browser u)) /\
     owner r' <> "" /\ name r' <> "") /\
  (0 <= 5 -> Z.of_nat (length [r]) <= 5).
Proof.
  intros r.
  assert (fetch_sorted one_page_browser "pulls" 5
          = Some ([search_url "pulls" 1; search_url "pulls" 2], [r])) as H
    by (vm_compute; reflexivity).
  split; [exact H|]. exact (fetch_sorted_rows one_page_browser "pulls" 5 _ _ H).
Defined.

(** Rows from captured responses are preferred: when some response of a
    page gives rows the markup is not looked at, and when none does the
    batch is what the markup gives. *)
Theorem page_batch_choice rs anchors :
  (Exists (fun resp => maybe_parse resp <> []) rs ->
   page_batch {| responses := rs; content := anchors |} = concat (map maybe_parse rs)) /\
  (Forall (fun resp => maybe_parse resp = []) rs ->
   page_batch {| responses := rs; content := anchors |} = parse_from_dom anchors).
Proof.
  unfold page_batch. simpl. split.
  - intros Hex. destruct (concat (map maybe_parse rs)) eqn:E; [|done].
    exfalso. induction Hex as [resp rs Hne|resp rs _ IH]; simpl in E.
    + by apply app_eq_nil in E as [? _].
    + apply app_eq_nil in E as [_ ?]. by apply IH.
  - intros Hall. replace (concat (map maybe_parse rs)) with (@nil RepoRow); [done|].
    induction Hall as [|resp rs Hr _ IH]; simpl; [done|]. by rewrite Hr.
Qed.

Definition nginx_response : response :=
  {| resp_url := "https://hub.docker.com/api/search/v3/catalog/search?query=";
     content_type := Some "application/json; charset=utf-8";
     resp_json := Some nginx_payload |}.

Definition html_response : response :=
  {| resp_url := "https://hub.docker.com/search?q="; content_type := Some "text/html";
     resp_json := None |}.

Lemma page_batch_choice_witness :
  let anchors := [{| href := "/r/foo/bar"; text := "" |}] in
  Exists (fun resp => maybe_parse resp <> []) [html_response; nginx_response] /\
  page_batch {| responses := [html_response; nginx_response]; content := anchors |}
    = concat (map maybe_parse [html_response; nginx_response]) /\
  Forall (fun resp => maybe_parse resp = []) [html_response] /\
  page_batch {| responses := [html_response]; content := anchors |}
    = parse_from_dom anchors.
Proof.
  intros anchors.
  assert (Exists (fun resp => maybe_parse resp <> []) [html_response; nginx_response])
    as H1 by (apply Exists_cons_tl, Exists_cons_hd; by vm_compute).
  assert (Forall (fun resp => maybe_parse resp = []) [html_response]) as H2
    by (repeat constructor).
  split; [exact H1|].
  split; [exact (proj1 (page_batch_choice [html_response; nginx_response] anchors) H1)|].
  split; [exact H2|].
  exact (proj2 (page_batch_choice [html_response] anchors) H2).
Defined.

Lemma app_inv_head_str s a b : s +:+ a = s +:+ b -> a = b.
Proof.
  induction s as [|c s IH]; [done|].
  change (String c (s +:+ a) = String c (s +:+ b) -> a = b). by intros [= ?%IH].
Qed.

(** Different page numbers give different addresses, so the loop never
    requests an address twice. *)
Theorem search_url_inj sort p q : search_url sort p = search_url sort q -> p = q.
Proof.
  unfold search_url. intros H.
  do 3 apply app_inv_head_str in H.
  assert (Text.py_int (Text.str_int p) = Text.py_int (Text.str_int q)) as E
    by (by rewrite H).
  rewrite !py_int_str_int in E. by injection E.
Qed.

Lemma search_url_inj_witness :
  search_url "stars" 7 = search_url "stars" 7 /\ 7 = 7.
Proof.
  split; [reflexivity|]. exact (search_url_inj "stars" 7 7 eq_refl).
Defined.

(** ** Structured extractor: priority of the top-level keys *)

Definition is_list (v : json) : bool :=
  match v with
  | JList _ => true
  | _ => false
  end.

Lemma first_list_under_found pre k post d xs :
  Forall (fun k' => is_list (dict_get d k') = false) pre ->
  dict_get d k = JList xs ->
  first_list_under (pre ++ k :: post) d = Some xs.
Proof.
  intros Hpre Hk. induction Hpre as [|k' pre Hk' _ IH]; simpl.
  - by rewrite Hk.
  - by destruct (dict_get d k').
Qed.

(** The first of the keys [summaries], [results], [data], [items] that is
    bound to a list decides: when that list is not empty its entries are
    the candidates, whatever the later keys and the nested objects hold. *)
Theorem parse_search_json_top_level pre k post d x xs :
  CANDIDATE_KEYS = pre ++ k :: post ->
  Forall (fun k' => is_list (dict_get d k') = false) pre ->
  dict_get d k = JList (x :: xs) ->
  parse_search_json (JDict d) = rows_of (x :: xs) [].
Proof.
  intros Hkeys Hpre Hk. unfold parse_search_json, find_candidates.
  by rewrite Hkeys, (first_list_under_found pre k post d (x :: xs)).
Qed.

Lemma parse_search_json_top_level_witness :
  let d := [("items", JList [JInt 1]); ("wrapper", JDict [("results", JList [JInt 2])]);
            ("summaries", JNull); ("data", JList [nginx_entry])] in
  CANDIDATE_KEYS = ["summaries"; "results"] ++ "data" :: ["items"] /\
  Forall (fun k' => is_list (dict_get d k') = false) ["summaries"; "results"] /\
  dict_get d "data" = JList [nginx_entry] /\
  parse_search_json (JDict d) = rows_of [nginx_entry] [].
Proof.
  intros d.
  assert (Forall (fun k' => is_list (dict_get d k') = false) ["summaries"; "results"])
    as H by (repeat constructor).
  split; [reflexivity|]. split; [exact H|]. split; [reflexivity|].
  exact (parse_search_json_top_level ["summaries"; "results"] "data" ["items"] d
           nginx_entry [] eq_refl H eq_refl).
Defined.

(** ** The table printer *)

Fixpoint repeat_char (c : ascii) (k : nat) : string :=
  match k with
  | O => EmptyString
  | S k' => String c (repeat_char c k')
  end.

(** [f"{s:<w}"] and [f"{s:>w}"]: padding with spaces, never cutting. *)
Definition ljust (w : nat) (s : string) : string :=
  s +:+ repeat_char " " (w - String.length s).

Definition rjust (w : nat) (s : string) : string :=
  repeat_char " " (w - String.length s) +:+ s.

Definition HEADER : string :=
  ljust 32 "Name" +:+ " " +:+ ljust 24 "Owner" +:+ " " +:+ ljust 10 "Pulls" +:+ " "
  +:+ rjust 7 "Stars" +:+ "  " +:+ ljust 22 "Last Updated" +:+ " URL".

(** The line printed for one Record. *)
Definition row_line (r : RepoRow) : string :=
  ljust 32 (name r) +:+ " " +:+ ljust 24 (owner r) +:+ " " +:+ ljust 10 (pulls r) +:+ " "
  +:+ rjust 7 (Text.str_int (stars r)) +:+ "  " +:+ ljust 22 (last_updated r) +:+ " "
  +:+ url r.

(** [pt(title, data)]: the arguments of its [print] calls, in order. *)
Definition pt (title : string) (data : list RepoRow) : list string :=
  [String newline title +:+ String newline (repeat_char "=" (String.length title));
   HEADER;
   repeat_char "-" 120]
  ++ map row_line data.

Lemma length_append s t : String.length (s +:+ t) = (String.length s + String.length t)%nat.
Proof.
  induction s as [|c s IH]; [done|].
  change (S (String.length (s +:+ t)) = S (String.length s + String.length t)).
  by rewrite IH.
Qed.

Lemma length_repeat_char c k : String.length (repeat_char c k) = k.
Proof. induction k as [|k IH]; simpl; [done|]. by rewrite IH. Qed.

Lemma length_ljust w s : String.length (ljust w s) = Nat.max w (String.length s).
Proof. unfold ljust. rewrite length_append, length_repeat_char. lia. Qed.

Lemma length_rjust w s : String.length (rjust w s) = Nat.max w (String.length s).
Proof. unfold rjust. rewrite length_append, length_repeat_char. lia. Qed.

Lemma substring_app_r s t :
  String.substring (String.length s) (String.length t) (s +:+ t) = t.
Proof.
  induction s as [|c s IH]; [|exact IH].
  change ("" +:+ t) with t. simpl String.length.
  induction t as [|a t IHt]; [done|]. simpl. by rewrite IHt.
Qed.

(** The table never cuts a field: a line is as long as its padded fields
    and separators together.  When every field fits its column the
    address starts at column 101, under the [URL] of the header. *)
Theorem row_line_layout r :
  String.length (row_line r) =
    (Nat.max 32 (String.length (name r)) + Nat.max 24 (String.length (owner r))
     + Nat.max 10 (String.length (pulls r))
     + Nat.max 7 (String.length (Text.str_int (stars r)))
     + Nat.max 22 (String.length (last_updated r)) + 6
     + String.length (url r))%nat /\
  ((String.length (name r) <= 32)%nat -> (String.length (owner r) <= 24)%nat ->
   (String.length (pulls r) <= 10)%nat ->
   (String.length (Text.str_int (stars r)) <= 7)%nat ->
   (String.length (last_updated r) <= 22)%nat ->
   String.substring 101 (String.length (url r)) (row_line r) = url r /\
   String.substring 101 3 HEADER = "URL").
Proof.
  split.
  - unfold row_line.
    rewrite !length_append, !length_ljust, length_rjust. simpl String.length. lia.
  - intros H1 H2 H3 H4 H5. split; [|done].
    unfold row_line.
    set (pre := ljust 32 (name r) +:+ " " +:+ ljust 24 (owner r) +:+ " "
                +:+ ljust 10 (pulls r) +:+ " " +:+ rjust 7 (Text.str_int (stars r))
                +:+ "  " +:+ ljust 22 (last_updated r) +:+ " ").
    assert (String.length pre = 101%nat) as Hpre.
    { subst pre. rewrite !length_append, !length_ljust, length_rjust.
      simpl String.length. lia. }
    replace (ljust 32 (name r) +:+ " " +:+ ljust 24 (owner r) +:+ " "
             +:+ ljust 10 (pulls r) +:+ " " +:+ rjust 7 (Text.str_int (stars r))
             +:+ "  " +:+ ljust 22 (last_updated r) +:+ " " +:+ url r)
      with (pre +:+ url r).
    + rewrite <- Hpre. apply substring_app_r.
    + subst pre. by rewrite !RxRun.app_assoc.
Qed.

Lemma row_line_layout_witness :
  let r := {| name := "nginx"; owner := "library"; pulls := "1B+"; stars := 20000;
              last_updated := "2 days ago";
              url := "https://hub.docker.com/r/library/nginx" |} in
  (String.length (name r) <= 32)%nat /\ (String.length (owner r) <= 24)%nat /\
  (String.length (pulls r) <= 10)%nat /\
  (String.length (Text.str_int (stars r)) <= 7)%nat /\
  (String.length (last_updated r) <= 22)%nat /\
  String.substring 101 (String.length (url r)) (row_line r) = url r /\
  String.substring 101 3 HEADER = "URL".
Proof.
  intros r.
  assert (String.length (name r) <= 32)%nat as H1 by (simpl; lia).
  assert (String.length (owner r) <= 24)%nat as H2 by (simpl; lia).
  assert (String.length (pulls r) <= 10)%nat as H3 by (simpl; lia).
  assert (String.length (Text.str_int (stars r)) <= 7)%nat as H4 by (vm_compute; lia).
  assert (String.length (last_updated r) <= 22)%nat as H5 by (simpl; lia).
  repeat (split; [assumption|]).
  exact (proj2 (row_line_layout r) H1 H2 H3 H4 H5).
Defined.

Lemma accumulate_appends_witness :
  let batch := [demo_row "a" "x"; demo_row "b" "y"; demo_row "a" "x"] in
  let seen : gset key := {[("b", "y")]} in
  exists extra,
    accumulate 5 batch seen [demo_row "b" "y"]
      = (list_to_set (key_of <$> extra) ∪ seen, [demo_row "b" "y"] ++ extra) /\
    sublist extra batch /\
    NoDup (key_of <$> extra) /\
    (forall r, r ∈ extra -> key_of r ∉ seen).
Proof.
  intros batch seen. exact (accumulate_appends 5 batch seen [demo_row "b" "y"]).
Defined.

Lemma fetch_sorted_pages_witness :
  exists j rows,
    fetch_sorted one_page_browser "pulls" 5
      = Some (search_url "pulls" <$> seqZ 1 j, rows) /\
    0 <= j <= PAGE_CEILING /\
    forall i, 1 <= i < j -> page_batch (one_page_browser (search_url "pulls" i)) <> [].
Proof. exact (fetch_sorted_pages one_page_browser "pulls" 5). Defined.
